(** * xpersist: the dual-mapped, page-diffing region of Sheriff

    A shallow embedding of [src/include/xpersist.h] and the properties of
    its write interception, periodic check, commit and transaction reset.

    Memory is modelled the way the code sees it: a buffer reached through a
    [void *] or [char *] is a list of bytes (each a [Z] in [0, 256)); an
    [unsigned long] read at index [i] decodes the [sizeof(unsigned long)]
    bytes at byte offset [sizeof(unsigned long) * i], least significant
    first (the code is x86 only); the counter arrays, which the code only
    ever reads and writes as whole [unsigned long]s, are lists of [Z].
    Buffers handed out by the page pools never overlap, so every [pageinfo]
    carries the contents of its buffers by value. *)

From Stdlib Require Import ZArith Lia Bool List.
From stdpp Require Import base tactics option list.

Local Open Scope Z_scope.

(** ** Constants of [xdefines.h] and of the target

    [xdefines.h] is not part of this file; its constants, the size of the
    template parameter [Type], [NElts], the width of [unsigned long] and
    whether [SSE_SUPPORT] is defined are taken as parameters. *)
Record xdefines := {
  PageSize : Z;            (* xdefines::PageSize, in bytes *)
  PAGE_SIZE_MASK : Z;      (* xdefines::PAGE_SIZE_MASK *)
  CACHE_LINE_SIZE : Z;     (* xdefines::CACHE_LINE_SIZE *)
  CACHES_PER_PAGE : Z;     (* xdefines::CACHES_PER_PAGE *)
  sizeof_ulong : Z;        (* sizeof(unsigned long) = sizeof(size_t), in bytes *)
  sizeof_Type : Z;         (* sizeof(Type) of the instantiation *)
  NElts : Z;               (* the template's element count *)
  SSE_SUPPORT : bool       (* which body of commitPageDiffs is compiled *)
}.

(** ** Machine integers *)

(** Conversion to [unsigned short]. *)
Definition to_ushort (x : Z) : Z := x mod 65536.

(** Conversion to [unsigned int]. *)
Definition to_uint (x : Z) : Z := x mod 4294967296.

(** Conversion to [int] (two's complement, 32 bits). *)
Definition to_int (x : Z) : Z := (x + 2147483648) mod 4294967296 - 2147483648.

(** Conversion to [unsigned long] / [size_t]. *)
Definition to_ulong (d : xdefines) (x : Z) : Z := x mod 2 ^ (8 * sizeof_ulong d).

(** ** Arrays *)

(** [a[i]] for an array of [unsigned long]; the mapped arrays are
    zero-filled, and a read outside the list yields 0. *)
Definition rd (a : list Z) (i : Z) : Z := default 0 (a !! Z.to_nat i).

(** [a[i] = v]. *)
Definition wr {A} (a : list A) (i : Z) (v : A) : list A := <[Z.to_nat i := v]> a.

(** ** Word-change records *)

(** Modelled from the spec: [wordchangeinfo.h] is missing; a word-change
    record is the packed pair (owning process id or the shared sentinel,
    change-version count), which the code's own comment lays out as two
    16-bit halves of one 32-bit word ([unsigned short tid = word->tid]). *)
Record wordchangeinfo := { tid : Z; version : Z }.

Definition SHARED_TID : Z := 0xFFFF.

Definition rdw (a : list wordchangeinfo) (i : Z) : wordchangeinfo :=
  default {| tid := 0; version := 0 |} (a !! Z.to_nat i).

(** [recordWordChanges(addr, changes)] on the record [addr] points to;
    [mine] is [getpid()]. *)
Definition recordWordChanges (mine : Z) (word : wordchangeinfo) (changes : Z)
  : wordchangeinfo :=
  let tid0 := tid word in
  let tid1 :=
    if tid0 =? 0 then to_ushort mine
    else if negb (tid0 =? 0) && negb (tid0 =? mine) && negb (tid0 =? 0xFFFF)
         then 0xFFFF
         else tid0 in
  {| tid := tid1; version := to_ushort (version word + changes) |}.

(** A run of [recordWordChanges] calls on one record, each with the pid of
    the calling process and its count. *)
Definition recordWordChanges_many (calls : list (Z * Z)) (word : wordchangeinfo)
  : wordchangeinfo :=
  fold_left (fun w c => recordWordChanges (fst c) w (snd c)) calls word.

(** Sum of the counts of a run of calls. *)
Definition total_changes (calls : list (Z * Z)) : Z :=
  fold_right (fun c acc => snd c + acc) 0 calls.

(** ** Byte buffers *)

(** Bytes per [unsigned long], as a list length. *)
Definition wbytes (d : xdefines) : nat := Z.to_nat (sizeof_ulong d).

(** Bytes per page, as a list length. *)
Definition pbytes (d : xdefines) : nat := Z.to_nat (PageSize d).

(** [PageSize / sizeof(unsigned long)], the bound of the word loops. *)
Definition pwords (d : xdefines) : nat := Z.to_nat (PageSize d / sizeof_ulong d).

(** Value of a run of bytes, least significant first. *)
Fixpoint le_word (bs : list Z) : Z :=
  match bs with
  | [] => 0
  | b :: r => b + 256 * le_word r
  end.

(** The [n] low bytes of [v], least significant first. *)
Fixpoint le_bytes (n : nat) (v : Z) : list Z :=
  match n with
  | O => []
  | S n' => v mod 256 :: le_bytes n' (v / 256)
  end.

(** [buf[off .. off + len)]. *)
Definition bytes_at (buf : list Z) (off len : nat) : list Z :=
  take len (drop off buf).

(** Writes [bs] into [buf] from byte offset [off] on. *)
Fixpoint store_bytes (buf : list Z) (off : nat) (bs : list Z) : list Z :=
  match bs with
  | [] => buf
  | b :: r => store_bytes (<[off := b]> buf) (S off) r
  end.

(** The byte [buf[n]] read through a [char *]. *)
Definition rdb (buf : list Z) (n : nat) : Z := default 0 (buf !! n).

(** The [unsigned long] stored at byte offset [off] of [buf]. *)
Definition load_word_at (d : xdefines) (buf : list Z) (off : nat) : Z :=
  le_word (bytes_at buf off (wbytes d)).

(** Stores the [unsigned long] [v] at byte offset [off] of [buf]. *)
Definition store_word_at (d : xdefines) (buf : list Z) (off : nat) (v : Z) : list Z :=
  store_bytes buf off (le_bytes (wbytes d) v).

(** [((unsigned long * ) buf)[i]]. *)
Definition load_word (d : xdefines) (buf : list Z) (i : nat) : Z :=
  load_word_at d buf (wbytes d * i).

(** [((unsigned long * ) buf)[i] = v]. *)
Definition store_word (d : xdefines) (buf : list Z) (i : nat) (v : Z) : list Z :=
  store_word_at d buf (wbytes d * i) v.

(** [memcpy(dst, src, n)] on the contents of the two buffers. *)
Definition memcpy (dst src : list Z) (n : nat) : list Z :=
  take n src ++ drop n dst.

(** ** Page metadata and the region object *)

(** [struct pageinfo] ([xpageentry.h] is missing; these are the fields the
    code of this file reads and writes). The three buffers are held by
    value. *)
Record pageinfo := {
  pageNo : Z;
  pageStart : Z;
  origTwinPage : list Z;      (* bytes *)
  tempTwinPage : list Z;      (* bytes *)
  wordChanges : list Z;       (* unsigned long counters *)
  shared : bool;
  alloced : bool
}.

(** What the region does to its surroundings, in order: the system calls of
    [handleWrite] and [updatePages], the calls to the pools, and the entry
    of [recordChangesAndUpdate] with its arguments (the line the code's
    disabled [printf] would print). *)
Inductive event :=
| Mprotect (addr len : Z) (writable : bool)
| Madvise (addr len : Z)
| RecordChanges (page : Z) (createTempPage : bool)
| PageEntryCleanup
| PageStoreCleanup.

(** The members of [class xpersist], the pid [getpid()] returns, the
    buffers [xpagestore] hands out next, and the events so far. *)
Record xpersist := {
  _isHeap : bool;
  _startaddr : Z;
  _startsize : Z;
  _privatePagesList : list (Z * pageinfo);   (* std::map, in key order *)
  _transientMemory : Z;                      (* address of the working mapping *)
  transient : list Z;                        (* its bytes *)
  persistent : list Z;                       (* bytes of _persistentMemory *)
  _cacheInvalidates : list Z;
  _cacheLastthread : list Z;
  _wordChanges : list wordchangeinfo;
  _pageUsers : list Z;
  getpid : Z;
  pagestore : list (list Z);
  trace : list event
}.

Definition set_privatePagesList (x : xpersist) (v : list (Z * pageinfo)) : xpersist :=
  {| _isHeap := _isHeap x; _startaddr := _startaddr x; _startsize := _startsize x;
     _privatePagesList := v;
     _transientMemory := _transientMemory x; transient := transient x;
     persistent := persistent x; _cacheInvalidates := _cacheInvalidates x;
     _cacheLastthread := _cacheLastthread x; _wordChanges := _wordChanges x;
     _pageUsers := _pageUsers x; getpid := getpid x; pagestore := pagestore x;
     trace := trace x |}.

Definition set_persistent (x : xpersist) (v : list Z) : xpersist :=
  {| _isHeap := _isHeap x; _startaddr := _startaddr x; _startsize := _startsize x;
     _privatePagesList := _privatePagesList x;
     _transientMemory := _transientMemory x; transient := transient x;
     persistent := v; _cacheInvalidates := _cacheInvalidates x;
     _cacheLastthread := _cacheLastthread x; _wordChanges := _wordChanges x;
     _pageUsers := _pageUsers x; getpid := getpid x; pagestore := pagestore x;
     trace := trace x |}.

Definition set_transient (x : xpersist) (v : list Z) : xpersist :=
  {| _isHeap := _isHeap x; _startaddr := _startaddr x; _startsize := _startsize x;
     _privatePagesList := _privatePagesList x;
     _transientMemory := _transientMemory x; transient := v;
     persistent := persistent x; _cacheInvalidates := _cacheInvalidates x;
     _cacheLastthread := _cacheLastthread x; _wordChanges := _wordChanges x;
     _pageUsers := _pageUsers x; getpid := getpid x; pagestore := pagestore x;
     trace := trace x |}.

Definition set_cacheInvalidates (x : xpersist) (v : list Z) : xpersist :=
  {| _isHeap := _isHeap x; _startaddr := _startaddr x; _startsize := _startsize x;
     _privatePagesList := _privatePagesList x;
     _transientMemory := _transientMemory x; transient := transient x;
     persistent := persistent x; _cacheInvalidates := v;
     _cacheLastthread := _cacheLastthread x; _wordChanges := _wordChanges x;
     _pageUsers := _pageUsers x; getpid := getpid x; pagestore := pagestore x;
     trace := trace x |}.

Definition set_cacheLastthread (x : xpersist) (v : list Z) : xpersist :=
  {| _isHeap := _isHeap x; _startaddr := _startaddr x; _startsize := _startsize x;
     _privatePagesList := _privatePagesList x;
     _transientMemory := _transientMemory x; transient := transient x;
     persistent := persistent x; _cacheInvalidates := _cacheInvalidates x;
     _cacheLastthread := v; _wordChanges := _wordChanges x;
     _pageUsers := _pageUsers x; getpid := getpid x; pagestore := pagestore x;
     trace := trace x |}.

Definition set_wordChanges (x : xpersist) (v : list wordchangeinfo) : xpersist :=
  {| _isHeap := _isHeap x; _startaddr := _startaddr x; _startsize := _startsize x;
     _privatePagesList := _privatePagesList x;
     _transientMemory := _transientMemory x; transient := transient x;
     persistent := persistent x; _cacheInvalidates := _cacheInvalidates x;
     _cacheLastthread := _cacheLastthread x; _wordChanges := v;
     _pageUsers := _pageUsers x; getpid := getpid x; pagestore := pagestore x;
     trace := trace x |}.

Definition set_pageUsers (x : xpersist) (v : list Z) : xpersist :=
  {| _isHeap := _isHeap x; _startaddr := _startaddr x; _startsize := _startsize x;
     _privatePagesList := _privatePagesList x;
     _transientMemory := _transientMemory x; transient := transient x;
     persistent := persistent x; _cacheInvalidates := _cacheInvalidates x;
     _cacheLastthread := _cacheLastthread x; _wordChanges := _wordChanges x;
     _pageUsers := v; getpid := getpid x; pagestore := pagestore x;
     trace := trace x |}.

Definition set_pagestore (x : xpersist) (v : list (list Z)) : xpersist :=
  {| _isHeap := _isHeap x; _startaddr := _startaddr x; _startsize := _startsize x;
     _privatePagesList := _privatePagesList x;
     _transientMemory := _transientMemory x; transient := transient x;
     persistent := persistent x; _cacheInvalidates := _cacheInvalidates x;
     _cacheLastthread := _cacheLastthread x; _wordChanges := _wordChanges x;
     _pageUsers := _pageUsers x; getpid := getpid x; pagestore := v;
     trace := trace x |}.

(** Appends one event. *)
Definition emit (x : xpersist) (e : event) : xpersist :=
  {| _isHeap := _isHeap x; _startaddr := _startaddr x; _startsize := _startsize x;
     _privatePagesList := _privatePagesList x;
     _transientMemory := _transientMemory x; transient := transient x;
     persistent := persistent x; _cacheInvalidates := _cacheInvalidates x;
     _cacheLastthread := _cacheLastthread x; _wordChanges := _wordChanges x;
     _pageUsers := _pageUsers x; getpid := getpid x; pagestore := pagestore x;
     trace := trace x ++ [e] |}.

Definition set_origTwinPage (p : pageinfo) (v : list Z) : pageinfo :=
  {| pageNo := pageNo p; pageStart := pageStart p; origTwinPage := v;
     tempTwinPage := tempTwinPage p; wordChanges := wordChanges p;
     shared := shared p; alloced := alloced p |}.

Definition set_tempTwinPage (p : pageinfo) (v : list Z) : pageinfo :=
  {| pageNo := pageNo p; pageStart := pageStart p; origTwinPage := origTwinPage p;
     tempTwinPage := v; wordChanges := wordChanges p;
     shared := shared p; alloced := alloced p |}.

Definition set_pageWordChanges (p : pageinfo) (v : list Z) : pageinfo :=
  {| pageNo := pageNo p; pageStart := pageStart p; origTwinPage := origTwinPage p;
     tempTwinPage := tempTwinPage p; wordChanges := v;
     shared := shared p; alloced := alloced p |}.

Definition set_shared (p : pageinfo) (v : bool) : pageinfo :=
  {| pageNo := pageNo p; pageStart := pageStart p; origTwinPage := origTwinPage p;
     tempTwinPage := tempTwinPage p; wordChanges := wordChanges p;
     shared := v; alloced := alloced p |}.

Definition set_alloced (p : pageinfo) (v : bool) : pageinfo :=
  {| pageNo := pageNo p; pageStart := pageStart p; origTwinPage := origTwinPage p;
     tempTwinPage := tempTwinPage p; wordChanges := wordChanges p;
     shared := shared p; alloced := v |}.

(** ** The atomic primitives

    Modelled from the spec: [atomic.h] is missing. The spec gives the three
    primitives as atomic read, atomic increment and atomic exchange, and
    says of [increment_and_return] in the write interceptor that the page is
    marked shared "if the previous value was nonzero": it returns the value
    before the increment. Each runs as one indivisible step of this
    process. *)
Definition atomic_read (a : list Z) (i : Z) : Z := rd a i.

Definition atomic_increment (d : xdefines) (a : list Z) (i : Z) : list Z :=
  wr a i (to_ulong d (rd a i + 1)).

Definition atomic_exchange (d : xdefines) (a : list Z) (i : Z) (v : Z) : Z * list Z :=
  (rd a i, wr a i (to_ulong d v)).

Definition atomic_increment_and_return (d : xdefines) (a : list Z) (i : Z)
  : Z * list Z :=
  (rd a i, wr a i (to_ulong d (rd a i + 1))).

(** ** The page pool

    Modelled from the spec: [xpagestore.h] is missing; the spec describes a
    pool that hands out page-sized buffers and takes them back, never
    returning them to the system. A buffer comes with whatever bytes it
    holds; [pagestore] lists the buffers in the order the pool hands them
    out, and a pool with none left hands out a fresh zero page. *)
Definition pagestore_alloc (d : xdefines) (x : xpersist) : list Z * xpersist :=
  match pagestore x with
  | b :: r => (b, set_pagestore x r)
  | [] => (replicate (pbytes d) 0, x)
  end.

(** ** Geometry *)

(** [size()]. *)
Definition size (d : xdefines) (x : xpersist) : Z :=
  if _isHeap x then to_ulong d (NElts d * sizeof_Type d) else _startsize x.

(** [base()]. *)
Definition base (x : xpersist) : Z := _transientMemory x.

(** [inRange(addr)]. *)
Definition inRange (d : xdefines) (x : xpersist) (addr : Z) : bool :=
  (to_ulong d (base x) <=? to_ulong d addr)
  && (to_ulong d addr <? to_ulong d (to_ulong d (base x) + size d x)).

(** The constructor [xpersist(startaddr, startsize)]. [init] is the content
    found at [startaddr], [mapaddr] the address the system picks for the
    working mapping when [startaddr] is null, [pid] and [pool] the process
    id and the buffers of the page pool. The two mappings show one
    zero-filled backing file of [NElts * sizeof(Type)] bytes. The result is
    [None] where the constructor aborts because the region is too small;
    the failures of [mkstemp], [ftruncate] and [mmap] are not modelled. *)
Definition xpersist_new (d : xdefines) (startaddr startsize : Z) (init : list Z)
    (mapaddr pid : Z) (pool : list (list Z)) : option xpersist :=
  let capacity := to_ulong d (NElts d * sizeof_Type d) in
  if (0 <? startsize) && (capacity <? startsize) then None
  else
    let file := replicate (Z.to_nat capacity) 0 in
    let isglobal := negb (startaddr =? 0) in
    let file' := if isglobal then memcpy file init (Z.to_nat startsize) else file in
    Some {| _isHeap := negb isglobal;
            _startaddr := startaddr;
            _startsize :=
              if isglobal
              then to_ulong d ((startsize / PageSize d + 1) * PageSize d)
              else startsize;
            _privatePagesList := [];
            _transientMemory := if isglobal then startaddr else mapaddr;
            transient := file';
            persistent := file';
            _cacheInvalidates :=
              replicate (Z.to_nat (capacity / CACHE_LINE_SIZE d)) 0;
            _cacheLastthread :=
              replicate (Z.to_nat (capacity / CACHE_LINE_SIZE d)) 0;
            _wordChanges :=
              replicate (Z.to_nat (capacity / sizeof_ulong d))
                        {| tid := 0; version := 0 |};
            _pageUsers := replicate (Z.to_nat (capacity / PageSize d)) 0;
            getpid := pid;
            pagestore := pool;
            trace := [] |}.

(** ** The write interceptor *)

(** [computePage(index)]: [index] is an [int], the product is formed in
    [size_t], the result is an [int]. *)
Definition computePage (d : xdefines) (index : Z) : Z :=
  to_int (to_ulong d (to_ulong d index * sizeof_Type d) / PageSize d).

(** [addPageEntry(pageNo, curPage, pageList)]: [std::map::insert], and when
    the key is there already the record it maps to is overwritten. *)
Fixpoint addPageEntry (pn : Z) (curPage : pageinfo) (pageList : list (Z * pageinfo))
  : list (Z * pageinfo) :=
  match pageList with
  | [] => [(pn, curPage)]
  | (k, v) :: r =>
      if pn <? k then (pn, curPage) :: (k, v) :: r
      else if pn =? k then (k, curPage) :: r
      else (k, v) :: addPageEntry pn curPage r
  end.

(** The page of the working mapping that starts at address [start]. *)
Definition local_page (d : xdefines) (x : xpersist) (start : Z) : list Z :=
  bytes_at (transient x) (Z.to_nat (start - base x)) (pbytes d).

(** [handleWrite(addr)]. The entry [xpageentry] hands out carries its
    original-twin buffer; its other two buffers are not attached yet. The
    forced copy-on-write leaves the bytes of the page as they are. *)
Definition handleWrite (d : xdefines) (x : xpersist) (addr : Z) : xpersist :=
  let pageStart := Z.land addr (Z.lnot (PAGE_SIZE_MASK d)) in
  let x1 := emit x (Mprotect pageStart (PageSize d) true) in
  let pn := computePage d (to_int (to_ulong d (addr - base x))) in
  let '(origUsers, users) := atomic_increment_and_return d (_pageUsers x1) pn in
  let curPage :=
    {| pageNo := pn; pageStart := pageStart;
       origTwinPage := memcpy [] (local_page d x1 pageStart) (pbytes d);
       tempTwinPage := []; wordChanges := [];
       shared := negb (to_int origUsers =? 0); alloced := false |} in
  let x2 := set_pageUsers x1 users in
  set_privatePagesList x2 (addPageEntry pn curPage (_privatePagesList x2)).

(** ** The periodic check *)

(** [allocResourcesForSharedPage(pageinfo)]. *)
Definition allocResourcesForSharedPage (d : xdefines) (x : xpersist) (p : pageinfo)
  : xpersist * pageinfo :=
  let '(_, x1) := pagestore_alloc d x in
  let '(tempbuf, x2) := pagestore_alloc d x1 in
  (x2, set_alloced
         (set_pageWordChanges (set_tempTwinPage p tempbuf) (replicate (pwords d) 0))
         true).

(** [recordCacheInvalidates(pageNo, cacheNo)]; the second component is the
    returned [interleaving]. *)
Definition recordCacheInvalidates (d : xdefines) (x : xpersist) (pn cacheNo : Z)
  : xpersist * Z :=
  let myTid := getpid x in
  let '(last, lastthread) := atomic_exchange d (_cacheLastthread x) cacheNo myTid in
  let lastTid := to_int last in
  let x1 := set_cacheLastthread x lastthread in
  if negb (lastTid =? 0) && negb (lastTid =? myTid)
  then (set_cacheInvalidates x1 (atomic_increment d (_cacheInvalidates x1) cacheNo), 1)
  else (x1, 0).

(** The state of the loops that diff a page: the region, [recordedCacheNo]
    and [interWrites]. *)
Record diffstate := {
  ds_x : xpersist;
  ds_recordedCacheNo : Z;
  ds_interWrites : Z
}.

(** The cache-line bookkeeping shared by the two diff loops: what happens
    for a word [i] found to differ. *)
Definition touchCacheLine (d : xdefines) (p : pageinfo) (s : diffstate) (i : nat)
  : diffstate :=
  let cacheNo := Z.shiftr (Z.of_nat i) 4 in
  if negb (cacheNo =? ds_recordedCacheNo s)
  then
    let '(x1, inter) :=
      recordCacheInvalidates d (ds_x s) (pageNo p)
        (to_int (pageNo p * CACHES_PER_PAGE d + cacheNo)) in
    {| ds_x := x1; ds_recordedCacheNo := cacheNo;
       ds_interWrites := to_ulong d (ds_interWrites s + inter) |}
  else s.

(** One turn of the loop of [recordChangesAndUpdate], for word [i]; [local]
    is the working copy and [p] the page's metadata after the turns
    before. *)
Definition recordChanges_word (d : xdefines) (createTempPage : bool) (local : list Z)
    (sp : diffstate * pageinfo) (i : nat) : diffstate * pageinfo :=
  let '(s, p) := sp in
  let twin := if createTempPage then origTwinPage p else tempTwinPage p in
  if negb (load_word d local i =? load_word d twin i)
  then
    let s1 := touchCacheLine d p s i in
    let p1 :=
      if negb createTempPage
      then set_tempTwinPage p (store_word d twin i (load_word d local i))
      else p in
    (s1, set_pageWordChanges p1
           (wr (wordChanges p1) (Z.of_nat i)
               (to_ulong d (rd (wordChanges p1) (Z.of_nat i) + 1))))
  else (s, p).

(** [recordChangesAndUpdate(pageinfo, createTempPage)]. *)
Definition recordChangesAndUpdate (d : xdefines) (x : xpersist) (p : pageinfo)
    (createTempPage : bool) : xpersist * pageinfo :=
  let x0 := emit x (RecordChanges (pageNo p) createTempPage) in
  let local := local_page d x0 (pageStart p) in
  let p0 :=
    if createTempPage
    then set_origTwinPage p (memcpy (origTwinPage p) local (pbytes d))
    else p in
  let '(s, p1) :=
    fold_left (recordChanges_word d createTempPage local) (seq 0 (pwords d))
      ({| ds_x := x0; ds_recordedCacheNo := 0xFFFFFFFF; ds_interWrites := 0 |}, p0) in
  (ds_x s, p1).

(** One turn of the loop of [periodicCheck], for the entry [p]; the flag is
    the local [createTempPage], declared before the loop. *)
Definition periodicCheck_page (d : xdefines) (xc : xpersist * bool) (p : pageinfo)
  : xpersist * bool * pageinfo :=
  let '(x, createTempPage) := xc in
  let checked :=
    if negb (shared p)
    then
      let curUsers := to_int (atomic_read (_pageUsers x) (pageNo p)) in
      if curUsers =? 1 then None else Some (set_shared p true)
    else Some p in
  match checked with
  | None => (x, createTempPage, p)
  | Some p1 =>
      if shared p1
      then
        let '(x1, p2, createTempPage1) :=
          if negb (alloced p1)
          then let '(x', p') := allocResourcesForSharedPage d x p1 in (x', p', true)
          else (x, p1, createTempPage) in
        let '(x2, p3) := recordChangesAndUpdate d x1 p2 createTempPage1 in
        (x2, createTempPage1, p3)
      else (x, createTempPage, p1)
  end.

(** The loop of [periodicCheck] over the entries still to visit. *)
Fixpoint periodicCheck_loop (d : xdefines) (xc : xpersist * bool)
    (todo : list (Z * pageinfo)) : xpersist * bool * list (Z * pageinfo) :=
  match todo with
  | [] => (xc, [])
  | (k, p) :: r =>
      let '(x1, c1, p1) := periodicCheck_page d xc p in
      let '(xc2, r') := periodicCheck_loop d (x1, c1) r in
      (xc2, (k, p1) :: r')
  end.

(** [periodicCheck()]. *)
Definition periodicCheck (d : xdefines) (x : xpersist) : xpersist :=
  let '(x1, _, l) := periodicCheck_loop d (x, false) (_privatePagesList x) in
  set_privatePagesList x1 l.

(** ** Commit *)

(** The 16 bytes of a [__m128i] loaded from [buf + 16 * i]. *)
Definition _mm_load_si128 (buf : list Z) (i : nat) : list Z :=
  bytes_at buf (16 * i) 16.

(** Byte lanes: [0xFF] where the two lanes are equal, [0] elsewhere. *)
Definition _mm_cmpeq_epi8 (a b : list Z) : list Z :=
  zip_with (fun u v => if u =? v then 255 else 0) a b.

Definition _mm_xor_si128 (a b : list Z) : list Z := zip_with Z.lxor a b.

(** The member [allones], as the constructor sets it. *)
Definition allones : list Z := replicate 16 255.

(** [_mm_maskmoveu_si128(src, mask, dest + off)]: lane [k] of [src] is
    stored to [dest[off + k]] where the top bit of lane [k] of [mask] is
    set. *)
Fixpoint _mm_maskmoveu_si128 (src mask dest : list Z) (off : nat) : list Z :=
  match src, mask with
  | s :: sr, m :: mr =>
      _mm_maskmoveu_si128 sr mr (if Z.testbit m 7 then <[off := s]> dest else dest)
                          (S off)
  | _, _ => dest
  end.

(** One turn of the vectorized loop of [commitPageDiffs]; [doff] is the
    byte offset of the destination page in [dest]. *)
Definition commitPageDiffs_sse_chunk (local twin : list Z) (doff : nat)
    (dest : list Z) (i : nat) : list Z :=
  let localChunk := _mm_load_si128 local i in
  let twinChunk := _mm_load_si128 twin i in
  let eqChunk := _mm_cmpeq_epi8 localChunk twinChunk in
  let neqChunk := _mm_xor_si128 allones eqChunk in
  _mm_maskmoveu_si128 localChunk neqChunk dest (doff + 16 * i).

(** The body of [commitPageDiffs] under [SSE_SUPPORT]. *)
Definition commitPageDiffs_sse (d : xdefines) (local twin dest : list Z) (doff : nat)
  : list Z :=
  fold_left (commitPageDiffs_sse_chunk local twin doff)
            (seq 0 (Z.to_nat (PageSize d / 16))) dest.

(** One turn of the word loop of [commitPageDiffs]. *)
Definition commitPageDiffs_slow_word (d : xdefines) (local twin : list Z) (doff : nat)
    (dest : list Z) (i : nat) : list Z :=
  if negb (load_word d local i =? load_word d twin i)
  then store_word_at d dest (doff + wbytes d * i) (load_word d local i)
  else dest.

(** The body of [commitPageDiffs] without [SSE_SUPPORT]. *)
Definition commitPageDiffs_slow (d : xdefines) (local twin dest : list Z) (doff : nat)
  : list Z :=
  fold_left (commitPageDiffs_slow_word d local twin doff) (seq 0 (pwords d)) dest.

(** [commitPageDiffs(local, twin, pageNo)]. *)
Definition commitPageDiffs (d : xdefines) (x : xpersist) (local twin : list Z) (pn : Z)
  : xpersist :=
  let doff := Z.to_nat (PageSize d * pn) in
  set_persistent x
    (if SSE_SUPPORT d
     then commitPageDiffs_sse d local twin (persistent x) doff
     else commitPageDiffs_slow d local twin (persistent x) doff).

(** [checkCommitWord(local + lo, twin + lo, share + so)], on [char]s. *)
Definition checkCommitWord (d : xdefines) (local twin : list Z) (lo : nat)
    (share : list Z) (so : nat) : list Z :=
  fold_left
    (fun sh k =>
       if negb (rdb local (lo + k) =? rdb twin (lo + k))
       then <[(so + k)%nat := rdb local (lo + k)]> sh
       else sh)
    (seq 0 (wbytes d)) share.

(** [&globalChanges[i]] as an index into [_wordChanges]: the code places
    [globalChanges] [PageSize * pageNo] bytes into the array and assumes a
    record is as wide as an [unsigned long]. *)
Definition globalIndex (d : xdefines) (p : pageinfo) (i : nat) : Z :=
  PageSize d * pageNo p / sizeof_ulong d + Z.of_nat i.

(** [recordWordChanges(&globalChanges[i], changes)] on the region. *)
Definition recordGlobal (d : xdefines) (x : xpersist) (p : pageinfo) (i : nat)
    (changes : Z) : xpersist :=
  let g := globalIndex d p i in
  set_wordChanges x
    (wr (_wordChanges x) g (recordWordChanges (getpid x) (rdw (_wordChanges x) g) changes)).

(** One turn of the loop of [checkcommitpage], for word [i]. *)
Definition checkcommit_word (d : xdefines) (p : pageinfo) (local : list Z)
    (s : diffstate) (i : nat) : diffstate :=
  let twin := origTwinPage p in
  let tempTwin := tempTwinPage p in
  let localChanges := wordChanges p in
  if load_word d local i =? load_word d twin i
  then
    if negb (rd localChanges (Z.of_nat i) =? 0)
    then {| ds_x := recordGlobal d (ds_x s) p i (rd localChanges (Z.of_nat i));
            ds_recordedCacheNo := ds_recordedCacheNo s;
            ds_interWrites := ds_interWrites s |}
    else s
  else
    let s1 :=
      if negb (load_word d local i =? load_word d tempTwin i)
      then
        let s' := touchCacheLine d p s i in
        {| ds_x := recordGlobal d (ds_x s') p i
                     (to_ulong d (rd localChanges (Z.of_nat i) + 1));
           ds_recordedCacheNo := ds_recordedCacheNo s';
           ds_interWrites := ds_interWrites s' |}
      else
        {| ds_x := recordGlobal d (ds_x s) p i (rd localChanges (Z.of_nat i));
           ds_recordedCacheNo := ds_recordedCacheNo s;
           ds_interWrites := ds_interWrites s |} in
    {| ds_x :=
         set_persistent (ds_x s1)
           (checkCommitWord d local twin (wbytes d * i) (persistent (ds_x s1))
              (Z.to_nat (PageSize d * pageNo p) + wbytes d * i));
       ds_recordedCacheNo := ds_recordedCacheNo s1;
       ds_interWrites := ds_interWrites s1 |}.

(** The loop of [checkcommitpage] over the word indices [words]. *)
Definition checkcommit_loop (d : xdefines) (p : pageinfo) (local : list Z)
    (s : diffstate) (words : list nat) : diffstate :=
  fold_left (checkcommit_word d p local) words s.

(** [checkcommitpage(pageinfo)]. *)
Definition checkcommitpage (d : xdefines) (x : xpersist) (p : pageinfo) : xpersist :=
  ds_x (checkcommit_loop d p (local_page d x (pageStart p))
          {| ds_x := x; ds_recordedCacheNo := 0xFFFFFFFF; ds_interWrites := 0 |}
          (seq 0 (pwords d))).

(** [commit(doChecking)]. *)
Definition commit (d : xdefines) (x : xpersist) (doChecking : bool) : xpersist :=
  fold_left
    (fun x' kp =>
       let p := snd kp in
       if shared p && alloced p
       then checkcommitpage d x' p
       else commitPageDiffs d x' (local_page d x' (pageStart p)) (origTwinPage p)
                            (pageNo p))
    (_privatePagesList x) x.

(** ** Transaction reset *)

(** [updatePages(local, size)]: the private copies of the range are
    dropped, so the working mapping shows the backing file there again, and
    the range is read-only again. *)
Definition updatePages (d : xdefines) (x : xpersist) (local sz : Z) : xpersist :=
  let off := Z.to_nat (local - base x) in
  let x1 := emit x (Madvise local sz) in
  let x2 := set_transient x1
              (take off (transient x1)
                 ++ bytes_at (persistent x1) off (Z.to_nat sz)
                 ++ drop (off + Z.to_nat sz) (transient x1)) in
  emit x2 (Mprotect local sz false).

(** [updateBatchedPages(batchedPages, batchedStart)]. *)
Definition updateBatchedPages (d : xdefines) (x : xpersist)
    (batchedPages batchedStart : Z) : xpersist :=
  updatePages d x batchedStart (to_int (batchedPages * PageSize d)).

(** The locals of [updateAll]. *)
Record batchstate := {
  bs_x : xpersist;
  bs_batchedStart : Z;
  bs_batchedPages : Z;
  bs_lastpage : Z
}.

(** One turn of the loop of [updateAll], for the entry [(pn, p)]; the
    comparison [pageNo == lastpage + 1] is made in [unsigned int]. *)
Definition updateAll_page (d : xdefines) (s : batchstate) (kp : Z * pageinfo)
  : batchstate :=
  let '(pn, p) := kp in
  if to_uint pn =? to_uint (bs_lastpage s + 1)
  then {| bs_x := bs_x s; bs_batchedStart := bs_batchedStart s;
          bs_batchedPages := to_int (bs_batchedPages s + 1);
          bs_lastpage := bs_lastpage s |}
  else
    let x1 :=
      if 0 <? bs_batchedPages s
      then updateBatchedPages d (bs_x s) (bs_batchedPages s) (bs_batchedStart s)
      else bs_x s in
    {| bs_x := x1; bs_batchedStart := pageStart p; bs_batchedPages := 1;
       bs_lastpage := to_uint pn |}.

(** [updateAll()]. *)
Definition updateAll (d : xdefines) (x : xpersist) : xpersist :=
  match _privatePagesList x with
  | [] => x
  | pages =>
      let s :=
        fold_left (updateAll_page d) pages
          {| bs_x := x; bs_batchedStart := 0; bs_batchedPages := 0;
             bs_lastpage := 0xFFFFFFF0 |} in
      let x1 :=
        if 0 <? bs_batchedPages s
        then updateBatchedPages d (bs_x s) (bs_batchedPages s) (bs_batchedStart s)
        else bs_x s in
      emit (emit (set_privatePagesList x1 []) PageEntryCleanup) PageStoreCleanup
  end.


(** ** Notions used in the statements *)

(** A byte, as a [Z]. *)
Definition is_byte (b : Z) : Prop := 0 <= b < 256.

(** Every element of the buffer is a byte. *)
Definition bytes_ok (buf : list Z) : bool :=
  forallb (fun b => (0 <=? b) && (b <? 256)) buf.


(** [r] is the smallest multiple of the page size that is at least [s]. *)
Definition rounded_up_to_page (d : xdefines) (s r : Z) : Prop :=
  (PageSize d | r) /\ s <= r /\ forall m, (PageSize d | m) -> s <= m -> r <= m.

(** [r] is the smallest multiple of the page size that is greater than [s]. *)
Definition next_page_multiple (d : xdefines) (s r : Z) : Prop :=
  (PageSize d | r) /\ s < r /\ forall m, (PageSize d | m) -> s < m -> r <= m.

(** In every word in which the working copy and the twin differ, the bytes
    in which they agree are already in the destination page. *)
Definition agreeing_bytes_in_place (d : xdefines) (local twin dest : list Z) (doff : nat)
  : Prop :=
  forall i k : nat,
    (i < pwords d)%nat -> (k < wbytes d)%nat ->
    load_word d local i <> load_word d twin i ->
    rdb local (wbytes d * i + k) = rdb twin (wbytes d * i + k) ->
    rdb dest (doff + wbytes d * i + k) = rdb local (wbytes d * i + k).

(** The store of the instrumented program that puts the byte [b] at
    address [addr] of the working mapping. *)
Definition program_write (x : xpersist) (addr b : Z) : xpersist :=
  set_transient x (<[Z.to_nat (addr - base x) := b]> (transient x)).

(** ** Concrete regions *)

(** [xpersist<char, 32768>] on 32-bit x86 with 4 KiB pages and 64-byte
    cache lines. *)
Definition d32 : xdefines :=
  {| PageSize := 4096; PAGE_SIZE_MASK := 4095; CACHE_LINE_SIZE := 64;
     CACHES_PER_PAGE := 64; sizeof_ulong := 4; sizeof_Type := 1;
     NElts := 32768; SSE_SUPPORT := true |}.

(** [xpersist<int, 8192>] on the same target. *)
Definition d32_int : xdefines :=
  {| PageSize := 4096; PAGE_SIZE_MASK := 4095; CACHE_LINE_SIZE := 64;
     CACHES_PER_PAGE := 64; sizeof_ulong := 4; sizeof_Type := 4;
     NElts := 8192; SSE_SUPPORT := true |}.

Definition no_region : xpersist :=
  {| _isHeap := true; _startaddr := 0; _startsize := 0; _privatePagesList := [];
     _transientMemory := 0; transient := []; persistent := [];
     _cacheInvalidates := []; _cacheLastthread := []; _wordChanges := [];
     _pageUsers := []; getpid := 0; pagestore := []; trace := [] |}.

(** A heap region of process 5, mapped at [0x100000]. *)
Definition heap_base : Z := 0x100000.

Definition heap0 : xpersist :=
  default no_region (xpersist_new d32 0 0 [] heap_base 5 []).

Definition heap0_int : xpersist :=
  default no_region (xpersist_new d32_int 0 0 [] heap_base 5 []).

(** Process 5 dirties exactly the pages 3, 4 and 5. *)
Definition dirty345 : xpersist :=
  handleWrite d32
    (handleWrite d32
       (handleWrite d32 heap0 (heap_base + 3 * 4096 + 8))
       (heap_base + 4 * 4096))
    (heap_base + 5 * 4096 + 100).

(** Process 7 has dirtied pages 0 and 1 before, and was the last to write
    to the first cache line of each. *)
Definition contended : xpersist :=
  set_cacheLastthread
    (set_pageUsers heap0 (wr (wr (_pageUsers heap0) 0 1) 1 1))
    (wr (wr (_cacheLastthread heap0) 0 7) 64 7).

(** Process 5 then writes 1 to the first byte of page 0: the fault, then
    the store. *)
Definition wrote0 : xpersist :=
  program_write (handleWrite d32 contended heap_base) heap_base 1.

(** The first entry of the private pages list of [x], or an empty entry. *)
Definition first_entry (x : xpersist) : pageinfo :=
  default {| pageNo := 0; pageStart := 0; origTwinPage := []; tempTwinPage := [];
             wordChanges := []; shared := false; alloced := false |}
          (snd <$> head (_privatePagesList x)).

(** One and two periodic checks after that write, with no write between
    the two. *)
Definition checked_once : xpersist := periodicCheck d32 wrote0.
Definition checked_twice : xpersist := periodicCheck d32 checked_once.

(** Process 5 writes to page 1, a periodic check runs, then it writes to
    page 0. *)
Definition wrote1_checked_wrote0 : xpersist :=
  program_write
    (handleWrite d32
       (periodicCheck d32
          (program_write (handleWrite d32 contended (heap_base + 4096))
                         (heap_base + 4096) 1))
       heap_base)
    heap_base 1.


(** Page-sized buffers for the two bodies of [commitPageDiffs]: the working
    copy changed byte 0 of the twin, and the destination holds another
    process's 9 in byte 1. *)
Definition diff_local : list Z := <[0%nat := 1]> (replicate 4096 0).
Definition diff_twin : list Z := replicate 4096 0.
Definition diff_dest : list Z := <[1%nat := 9]> (replicate 4096 0).

(** The globals of a program: 4096 bytes at [0x8000]. *)
Definition globals_page : option xpersist :=
  xpersist_new d32 0x8000 4096 (replicate 4096 1) 0 5 [].

(** The first promotion of page 0 after that write, as [periodicCheck]
    performs it: the resources are allocated, then the changes are recorded
    with [createTempPage] set. *)
Definition promoted0 : xpersist * pageinfo :=
  allocResourcesForSharedPage d32 wrote0 (first_entry wrote0).

Definition first_pass0 : xpersist * pageinfo :=
  recordChangesAndUpdate d32 (fst promoted0) (snd promoted0) true.

(** What a page list shows of each entry: key, [shared], [alloced]. *)
Definition flags (x : xpersist) : list (Z * bool * bool) :=
  (fun kp => (fst kp, shared (snd kp), alloced (snd kp))) <$> _privatePagesList x.

(** A fault at the first byte of the second page of an [int] region. *)
Definition faulted_int : xpersist := handleWrite d32_int heap0_int (heap_base + 4096).



(** ** Further operations of the region *)

(** [getDirtyPages()]. *)
Definition getDirtyPages (x : xpersist) : Z :=
  to_int (Z.of_nat (length (_privatePagesList x))).

(** [std::map::find] on a page list: the record stored under [pn]. *)
Fixpoint find_page (pn : Z) (pageList : list (Z * pageinfo)) : option pageinfo :=
  match pageList with
  | [] => None
  | (k, v) :: r => if pn =? k then Some v else find_page pn r
  end.

(** Every key of the list is greater than [k], and the keys increase. *)
Fixpoint keys_above (k : Z) (pageList : list (Z * pageinfo)) : Prop :=
  match pageList with
  | [] => True
  | (k', _) :: r => k < k' /\ keys_above k' r
  end.

(** The order [std::map] keeps: keys strictly increasing, so none twice. *)
Definition keys_increasing (pageList : list (Z * pageinfo)) : Prop :=
  match pageList with
  | [] => True
  | (k, _) :: r => keys_above k r
  end.



(** The loop of [cleanupHeapObject] over the cache lines [lines]: the
    result is [false], with the lines before it already cleared, at the
    first line whose count is at least [MIN_INVALIDATES_CARE]. *)
Fixpoint cleanup_lines (min_care : Z) (ci : list Z) (lines : list Z) : bool * list Z :=
  match lines with
  | [] => (true, ci)
  | i :: r =>
      if min_care <=? rd ci i then (false, ci)
      else cleanup_lines min_care (wr ci i 0) r
  end.

(** [memset(&word, 0, n)] for [n < 4] on one record: the version is the low
    half of the packed word and the owner the high half, as the code's
    comment at [_wordChanges] lays them out. *)
Definition zero_record_prefix (n : Z) (w : wordchangeinfo) : wordchangeinfo :=
  if n =? 0 then w
  else if n =? 1 then {| tid := tid w; version := version w - version w mod 256 |}
  else if n =? 2 then {| tid := tid w; version := 0 |}
  else {| tid := tid w - tid w mod 256; version := 0 |}.

(** [memset(&a[first], 0, sz)] on an array of word-change records, each
    four bytes wide. *)
Definition memset_records (a : list wordchangeinfo) (first : Z) (sz : Z)
  : list wordchangeinfo :=
  let whole := Z.to_nat (sz / 4) in
  let a1 :=
    fold_left (fun acc k => wr acc (first + Z.of_nat k) {| tid := 0; version := 0 |})
              (seq 0 whole) a in
  if sz mod 4 =? 0 then a1
  else wr a1 (first + sz / 4) (zero_record_prefix (sz mod 4) (rdw a1 (first + sz / 4))).

(** [cleanupHeapObject(ptr, sz)]; [min_care] is
    [xdefines::MIN_INVALIDATES_CARE]. The result is [None] where the
    assertion [_isHeap == true] fails. *)
Definition cleanupHeapObject (d : xdefines) (min_care : Z) (x : xpersist) (ptr sz : Z)
  : option (bool * xpersist) :=
  if negb (_isHeap x) then None
  else if negb (inRange d x ptr) then Some (false, x)
  else
    let offset := to_int (to_int ptr - to_int (base x)) in
    let index := to_int (Z.quot offset (CACHE_LINE_SIZE d)) in
    let cachelines0 := to_int (sz / CACHE_LINE_SIZE d) in
    let cachelines := if cachelines0 =? 0 then 1 else cachelines0 in
    let lines := (fun k => index + Z.of_nat k) <$> seq 0 (Z.to_nat cachelines) in
    let '(ok, ci) := cleanup_lines min_care (_cacheInvalidates x) lines in
    let x1 := set_cacheInvalidates x ci in
    if ok
    then Some (true,
               set_wordChanges x1
                 (memset_records (_wordChanges x1)
                    (to_ulong d offset / sizeof_ulong d) sz))
    else Some (false, x1).

(** ** Further notions used in the statements *)

(** The byte offset of the page of [p] in the persistent mapping. *)
Definition page_offset (d : xdefines) (p : pageinfo) : nat :=
  Z.to_nat (PageSize d * pageNo p).

(** Byte [n] of the persistent mapping lies in the page of [p]. *)
Definition in_page (d : xdefines) (p : pageinfo) (n : nat) : Prop :=
  (page_offset d p <= n < page_offset d p + pbytes d)%nat.


(** The two regions differ at most in the cache-line arrays, the page
    list, the pool and the trace: the mappings, the word-change array, the
    user counters and the identity of the region are the same. *)
Definition same_memory (x x' : xpersist) : Prop :=
  _isHeap x' = _isHeap x /\
  _startaddr x' = _startaddr x /\
  _startsize x' = _startsize x /\
  _transientMemory x' = _transientMemory x /\
  transient x' = transient x /\
  persistent x' = persistent x /\
  _wordChanges x' = _wordChanges x /\
  _pageUsers x' = _pageUsers x /\
  getpid x' = getpid x.

(** The metadata [p'] of a page after the first [m] turns of the loop of
    [recordChangesAndUpdate] without [createTempPage], started on [p] with
    working copy [local]: the temporary twin has been rolled forward to the
    working copy in the words done, the change counter of each word done
    that differed has gone up by one, and nothing else has changed. *)
Definition rolled_forward (d : xdefines) (local : list Z) (p : pageinfo) (m : nat)
    (p' : pageinfo) : Prop :=
  length (tempTwinPage p') = length (tempTwinPage p) /\
  (forall n : nat,
      tempTwinPage p' !! n
      = if decide (n < wbytes d * m)%nat then local !! n else tempTwinPage p !! n) /\
  length (wordChanges p') = length (wordChanges p) /\
  (forall j : nat,
      rd (wordChanges p') (Z.of_nat j)
      = if decide ((j < m)%nat /\
                   load_word d local j <> load_word d (tempTwinPage p) j)
        then to_ulong d (rd (wordChanges p) (Z.of_nat j) + 1)
        else rd (wordChanges p) (Z.of_nat j)) /\
  origTwinPage p' = origTwinPage p /\
  pageNo p' = pageNo p /\ pageStart p' = pageStart p /\
  shared p' = shared p /\ alloced p' = alloced p.

(** Commit leaves the working set of the process alone: the working
    mapping, the page list, the user counters and the pid are the same in
    the two regions. *)
Definition same_working_set (x x' : xpersist) : Prop :=
  _transientMemory x' = _transientMemory x /\
  transient x' = transient x /\
  _privatePagesList x' = _privatePagesList x /\
  _pageUsers x' = _pageUsers x /\
  getpid x' = getpid x.




(** An entry of the page list for which [periodicCheck] has nothing to set
    up: the page is unshared with one user, or it is shared with its extra
    resources allocated and its buffers of full size. *)
Definition page_tracked (d : xdefines) (x : xpersist) (p : pageinfo) : Prop :=
  (shared p = false /\ to_int (atomic_read (_pageUsers x) (pageNo p)) = 1) \/
  (shared p = true /\ alloced p = true /\
   length (local_page d x (pageStart p)) = pbytes d /\
   length (tempTwinPage p) = pbytes d /\
   length (wordChanges p) = pwords d /\
   bytes_ok (local_page d x (pageStart p)) = true /\
   bytes_ok (tempTwinPage p) = true).

(** An entry with nothing left to record: unshared with one user, or shared
    with a temporary twin that equals the working copy. *)
Definition page_settled (d : xdefines) (x : xpersist) (p : pageinfo) : Prop :=
  (shared p = false /\ to_int (atomic_read (_pageUsers x) (pageNo p)) = 1) \/
  (shared p = true /\ alloced p = true /\
   tempTwinPage p = local_page d x (pageStart p)).

(** [x'] differs from [x] in the event trace at most. *)
Definition same_but_trace (x x' : xpersist) : Prop :=
  same_memory x x' /\
  _privatePagesList x' = _privatePagesList x /\
  _cacheInvalidates x' = _cacheInvalidates x /\
  _cacheLastthread x' = _cacheLastthread x /\
  pagestore x' = pagestore x.

(** One turn of the loop of [commit], for the entry [p]. *)
Definition commit_page (d : xdefines) (x : xpersist) (p : pageinfo) : xpersist :=
  if shared p && alloced p
  then checkcommitpage d x p
  else commitPageDiffs d x (local_page d x (pageStart p)) (origTwinPage p) (pageNo p).

(** No other process has committed to the page of [p] since its twin was
    taken: working copy and original twin have page size and hold bytes,
    the page lies inside the persistent mapping, and the persistent mapping
    still holds the twin there. *)
Definition page_unrivalled (d : xdefines) (x : xpersist) (p : pageinfo) : Prop :=
  length (local_page d x (pageStart p)) = pbytes d /\
  length (origTwinPage p) = pbytes d /\
  bytes_ok (local_page d x (pageStart p)) = true /\
  bytes_ok (origTwinPage p) = true /\
  (page_offset d p + pbytes d <= length (persistent x))%nat /\
  bytes_at (persistent x) (page_offset d p) (pbytes d) = origTwinPage p.

(** No two entries of the list share a byte of the persistent mapping. *)
Fixpoint pages_apart (d : xdefines) (pageList : list (Z * pageinfo)) : Prop :=
  match pageList with
  | [] => True
  | (_, p) :: r =>
      Forall (fun kq => forall n, in_page d p n -> ~ in_page d (snd kq) n) r /\
      pages_apart d r
  end.

(** Byte [n] of a mapping lies in the page with number [k]. *)
Definition in_page_no (d : xdefines) (k : Z) (n : nat) : Prop :=
  PageSize d * k <= Z.of_nat n < PageSize d * k + PageSize d.

(** Byte [n] lies in the batch the loop of [updateAll] holds open. *)
Definition in_batch (d : xdefines) (s : batchstate) (n : nat) : Prop :=
  1 <= bs_batchedPages s /\
  PageSize d * bs_lastpage s <= Z.of_nat n
  < PageSize d * bs_lastpage s + bs_batchedPages s * PageSize d.

(** The locals of [updateAll] on the region [x], when [done] holds the
    bytes of the pages the loop has gone through and [hi] bounds their
    page numbers: the open batch lies inside the mapping and is made of
    pages gone through; its bytes and the bytes of other pages are as in
    [x], and the bytes of the pages gone through that are not in the batch
    have been reloaded from the persistent mapping. *)
Definition reset_inv (d : xdefines) (x : xpersist) (done : nat -> Prop) (hi : Z)
    (s : batchstate) : Prop :=
  persistent (bs_x s) = persistent x /\
  _transientMemory (bs_x s) = _transientMemory x /\
  length (transient (bs_x s)) = length (transient x) /\
  ((bs_batchedPages s = 0 /\ bs_lastpage s = 0xFFFFFFF0) \/
   (1 <= bs_batchedPages s <= 2 /\ 0 <= bs_lastpage s /\
    bs_lastpage s + bs_batchedPages s - 1 <= hi /\
    bs_batchedStart s = base x + PageSize d * bs_lastpage s /\
    PageSize d * bs_lastpage s + bs_batchedPages s * PageSize d
    <= Z.of_nat (length (transient x)))) /\
  hi < 2147483648 /\
  (forall n, done n -> Z.of_nat n < PageSize d * (hi + 1)) /\
  (forall n, in_batch d s n -> done n) /\
  (forall n, in_batch d s n \/ ~ done n ->
     transient (bs_x s) !! n = transient x !! n) /\
  (forall n, ~ in_batch d s n -> done n ->
     transient (bs_x s) !! n = persistent x !! n).

(** * Properties *)

(** ** Word-change records *)

Lemma to_ushort_add_l (a b : Z) : to_ushort (to_ushort a + b) = to_ushort (a + b).
Proof. unfold to_ushort. apply Zplus_mod_idemp_l. Qed.

Lemma recordWordChanges_shared (mine changes : Z) (w : wordchangeinfo) :
  tid w = SHARED_TID ->
  recordWordChanges mine w changes
  = {| tid := SHARED_TID; version := to_ushort (version w + changes) |}.
Proof.
  intros Hs. unfold recordWordChanges. rewrite Hs. unfold SHARED_TID. simpl.
  rewrite andb_false_r. reflexivity.
Qed.

Lemma recordWordChanges_many_shared (calls : list (Z * Z)) (w : wordchangeinfo) :
  tid w = SHARED_TID ->
  recordWordChanges_many calls w
  = {| tid := SHARED_TID;
       version := to_ushort (version w + total_changes calls) |} \/
  (calls = [] /\ recordWordChanges_many calls w = w).
Proof.
  revert w. induction calls as [|[mine c] calls IH]; intros w Hs.
  - right. split; reflexivity.
  - left. unfold recordWordChanges_many in *. simpl.
    rewrite (recordWordChanges_shared mine c w Hs).
    destruct (IH {| tid := SHARED_TID; version := to_ushort (version w + c) |} eq_refl)
      as [E | [-> E]].
    + rewrite E. simpl. rewrite to_ushort_add_l. f_equal. f_equal. lia.
    + simpl. f_equal. f_equal. lia.
Qed.

(** C10. Once the owner field of a word-change record holds the shared
    sentinel [0xFFFF], a call of [recordWordChanges] on it, by whatever
    process and with whatever count, leaves the owner field at the sentinel
    and adds the count to the 16-bit version field; the same holds after
    any run of such calls, the version then being advanced by the sum of
    the counts. *)
Theorem C10_shared_owner_is_kept (w : wordchangeinfo) :
  tid w = SHARED_TID ->
  (forall mine changes,
      tid (recordWordChanges mine w changes) = SHARED_TID /\
      version (recordWordChanges mine w changes) = to_ushort (version w + changes)) /\
  (forall calls,
      tid (recordWordChanges_many calls w) = SHARED_TID /\
      to_ushort (version (recordWordChanges_many calls w))
      = to_ushort (version w + total_changes calls)).
Proof.
  intros Hs. split.
  - intros mine changes. rewrite (recordWordChanges_shared mine changes w Hs).
    split; reflexivity.
  - intros calls.
    destruct (recordWordChanges_many_shared calls w Hs) as [E | [-> E]]; rewrite E.
    + simpl. split; [reflexivity|]. unfold to_ushort. apply Zmod_mod.
    + simpl. split; [exact Hs|]. f_equal. lia.
Qed.

Lemma C10_shared_owner_is_kept_witness :
  tid (recordWordChanges 5 {| tid := 0xFFFF; version := 3 |} 2) = SHARED_TID /\
  version (recordWordChanges 5 {| tid := 0xFFFF; version := 3 |} 2) = to_ushort (3 + 2).
Proof.
  exact (proj1 (C10_shared_owner_is_kept {| tid := 0xFFFF; version := 3 |} eq_refl) 5 2).
Defined.

(** ** The size of a region *)

Lemma xpersist_new_fits (d : xdefines) (startaddr startsize : Z) (init : list Z)
    (mapaddr pid : Z) (pool : list (list Z)) :
  (0 <? startsize) && (to_ulong d (NElts d * sizeof_Type d) <? startsize) = false ->
  exists x,
    xpersist_new d startaddr startsize init mapaddr pid pool = Some x /\
    _isHeap x = (startaddr =? 0) /\
    _startsize x =
      (if startaddr =? 0 then startsize
       else to_ulong d ((startsize / PageSize d + 1) * PageSize d)).
Proof.
  intros Hfit. unfold xpersist_new. rewrite Hfit.
  eexists. split; [reflexivity|]. simpl.
  destruct (startaddr =? 0); split; reflexivity.
Qed.

Lemma next_page_multiple_intro (d : xdefines) (s : Z) :
  0 < PageSize d ->
  next_page_multiple d s ((s / PageSize d + 1) * PageSize d).
Proof.
  intros Hp. set (P := PageSize d) in *. repeat split.
  - apply Z.divide_factor_r.
  - pose proof (Z.div_mod s P ltac:(lia)). pose proof (Z.mod_pos_bound s P Hp). lia.
  - intros m [q ->] Hlt.
    assert (s / P < q) by (apply Z.div_lt_upper_bound; lia).
    nia.
Qed.

(** C9, as the code has it. For a region created with an initial content
    buffer of [S] bytes (a non-null start address), the constructor
    succeeds when [S] fits the region and [size()] returns
    [(S / PageSize + 1) * PageSize], the smallest multiple of the page size
    that is strictly greater than [S]; for a heap region [size()] returns
    the element count times the element size. *)
Theorem C9_size_of_region (d : xdefines) (S : Z) (init : list Z)
    (mapaddr pid : Z) (pool : list (list Z)) :
  0 < PageSize d ->
  0 <= S <= NElts d * sizeof_Type d ->
  NElts d * sizeof_Type d < 2 ^ (8 * sizeof_ulong d) ->
  (forall startaddr,
      startaddr <> 0 ->
      (S / PageSize d + 1) * PageSize d < 2 ^ (8 * sizeof_ulong d) ->
      exists x,
        xpersist_new d startaddr S init mapaddr pid pool = Some x /\
        size d x = (S / PageSize d + 1) * PageSize d /\
        next_page_multiple d S (size d x)) /\
  (exists x,
      xpersist_new d 0 S init mapaddr pid pool = Some x /\
      size d x = NElts d * sizeof_Type d).
Proof.
  intros Hp HS Hcap.
  assert (Hc : to_ulong d (NElts d * sizeof_Type d) = NElts d * sizeof_Type d).
  { unfold to_ulong. apply Z.mod_small. lia. }
  assert (Hfit : (0 <? S) && (to_ulong d (NElts d * sizeof_Type d) <? S) = false).
  { rewrite Hc. apply andb_false_iff. right. apply Z.ltb_ge. lia. }
  split.
  - intros startaddr Hne Hno.
    destruct (xpersist_new_fits d startaddr S init mapaddr pid pool Hfit)
      as (x & Hx & Hheap & Hsz).
    apply Z.eqb_neq in Hne. rewrite Hne in Hheap, Hsz.
    assert (Hsize : size d x = (S / PageSize d + 1) * PageSize d).
    { unfold size. rewrite Hheap, Hsz. unfold to_ulong. apply Z.mod_small.
      split; [|exact Hno].
      assert (0 <= S / PageSize d) by (apply Z.div_pos; lia).
      apply Z.mul_nonneg_nonneg; lia. }
    exists x. split; [exact Hx|]. split; [exact Hsize|].
    rewrite Hsize. apply next_page_multiple_intro. exact Hp.
  - destruct (xpersist_new_fits d 0 S init mapaddr pid pool Hfit)
      as (x & Hx & Hheap & _).
    exists x. split; [exact Hx|]. unfold size. rewrite Hheap. simpl. exact Hc.
Qed.

Lemma C9_size_of_region_witness :
  exists x,
    xpersist_new d32 0x8000 5000 (replicate 5000 1) 0 5 [] = Some x /\
    size d32 x = (5000 / PageSize d32 + 1) * PageSize d32 /\
    next_page_multiple d32 5000 (size d32 x).
Proof.
  refine (proj1 (C9_size_of_region d32 5000 (replicate 5000 1) 0 5 [] _ _ _)
                0x8000 _ _).
  - vm_compute. reflexivity.
  - vm_compute. split; discriminate.
  - vm_compute. reflexivity.
  - vm_compute. discriminate.
  - vm_compute. reflexivity.
Defined.

(** C9, as stated, fails where the initial size is a whole number of pages:
    for 4096 bytes of globals and 4096-byte pages [size()] is 8192, and
    4096 itself is a smaller multiple of the page size that holds them. *)
Lemma C9_size_not_rounded_up :
  exists x,
    globals_page = Some x /\
    size d32 x = 8192 /\
    ~ rounded_up_to_page d32 4096 (size d32 x).
Proof.
  destruct (xpersist_new_fits d32 0x8000 4096 (replicate 4096 1) 0 5 [] eq_refl)
    as (x & Hx & Hheap & Hsz).
  assert (Hsize : size d32 x = 8192).
  { unfold size. rewrite Hheap, Hsz. reflexivity. }
  exists x. split; [exact Hx|]. split; [exact Hsize|].
  rewrite Hsize. intros (_ & _ & Hmin).
  specialize (Hmin 4096). simpl in Hmin.
  assert (8192 <= 4096); [|lia].
  apply Hmin; [exists 1; reflexivity | lia].
Qed.

(** ** The write interceptor *)

Lemma to_int_small (z : Z) : -2147483648 <= z < 2147483648 -> to_int z = z.
Proof. intros H. unfold to_int. rewrite Z.mod_small; lia. Qed.

(** [handleWrite] records the byte offset scaled by the element size. *)
Lemma computePage_of_offset (d : xdefines) (off : Z) :
  0 < PageSize d -> 4 <= sizeof_ulong d -> 0 <= sizeof_Type d ->
  0 <= off < 2147483648 -> off * sizeof_Type d < 2147483648 ->
  computePage d (to_int (to_ulong d off)) = off * sizeof_Type d / PageSize d.
Proof.
  intros Hp Hw HT Hoff Hprod.
  assert (Hpow : 2147483648 <= 2 ^ (8 * sizeof_ulong d)).
  { change 2147483648 with (2 ^ 31). apply Z.pow_le_mono_r; lia. }
  assert (Hu : forall z, 0 <= z < 2147483648 -> to_ulong d z = z)
    by (intros z Hz; unfold to_ulong; apply Z.mod_small; lia).
  unfold computePage. rewrite (Hu off), (to_int_small off) by lia.
  assert (Hpr : 0 <= off * sizeof_Type d) by (apply Z.mul_nonneg_nonneg; lia).
  rewrite (Hu off), (Hu (off * sizeof_Type d)) by lia.
  assert (0 <= off * sizeof_Type d / PageSize d) by (apply Z.div_pos; lia).
  assert (off * sizeof_Type d / PageSize d <= off * sizeof_Type d)
    by (apply Z.div_le_upper_bound; nia).
  apply to_int_small. lia.
Qed.

(** For an element type of one byte the recorded index is the index of the
    page that holds the address. *)
Lemma computePage_of_byte_offset (d : xdefines) (off : Z) :
  sizeof_Type d = 1 -> 0 < PageSize d -> 4 <= sizeof_ulong d ->
  0 <= off < 2147483648 ->
  computePage d (to_int (to_ulong d off)) = off / PageSize d.
Proof.
  intros HT Hp Hw Hoff.
  rewrite computePage_of_offset by (rewrite ?HT; lia).
  rewrite HT, Z.mul_1_r. reflexivity.
Qed.

(** C8, on the code. In a region of [int]s a fault at byte offset 4096,
    which lies in page 1, is recorded with page index 4: [handleWrite]
    passes the byte offset to [computePage], which multiplies it by
    [sizeof(Type)]. *)
Theorem C8_page_index_scaled_by_element_size :
  (heap_base + 4096 - base heap0_int) / PageSize d32_int = 1 /\
  pageStart (first_entry faulted_int) = heap_base + 4096 /\
  pageNo (first_entry faulted_int) = 4 /\
  fst <$> _privatePagesList faulted_int = [4].
Proof. repeat apply conj; vm_compute; reflexivity. Qed.

(** ** Interim recording *)

Lemma fold_left_fixed {A B} (f : A -> B -> A) (l : list B) (a : A) :
  (forall b, In b l -> f a b = a) -> fold_left f l a = a.
Proof.
  induction l as [|b l IH]; intros Hf; simpl; [reflexivity|].
  rewrite (Hf b) by (left; reflexivity).
  apply IH. intros b' Hb'. apply Hf. right. exact Hb'.
Qed.

Lemma bytes_at_app_l (l r : list Z) (off len : nat) :
  (off + len <= length l)%nat -> bytes_at (l ++ r) off len = bytes_at l off len.
Proof.
  intros H. unfold bytes_at.
  rewrite drop_app_le by lia. apply take_app_le. rewrite length_drop. lia.
Qed.

(** With [createTempPage] set, [recordChangesAndUpdate] finds no differing
    word in any page: it overwrites the original twin with the working
    copy and then compares the two. All it does is that overwrite (and
    the entry in the trace). *)
Lemma recordChangesAndUpdate_first_pass (d : xdefines) (x : xpersist) (p : pageinfo) :
  (wbytes d * pwords d <= pbytes d)%nat ->
  length (local_page d x (pageStart p)) = pbytes d ->
  recordChangesAndUpdate d x p true
  = (emit x (RecordChanges (pageNo p) true),
     set_origTwinPage p
       (memcpy (origTwinPage p) (local_page d x (pageStart p)) (pbytes d))).
Proof.
  intros Hwp Hlen. unfold recordChangesAndUpdate.
  change (local_page d (emit x (RecordChanges (pageNo p) true)) (pageStart p))
    with (local_page d x (pageStart p)).
  set (local := local_page d x (pageStart p)) in *.
  rewrite fold_left_fixed; [reflexivity|].
  intros i Hi. apply in_seq in Hi.
  unfold recordChanges_word. cbn [origTwinPage set_origTwinPage].
  assert (Hw : load_word d local i
               = load_word d (memcpy (origTwinPage p) local (pbytes d)) i).
  { unfold load_word, load_word_at, memcpy.
    rewrite take_ge by lia. rewrite bytes_at_app_l; [reflexivity|].
    assert (wbytes d * S i <= wbytes d * pwords d)%nat
      by (apply Nat.mul_le_mono_l; lia).
    lia. }
  apply Z.eqb_eq in Hw. rewrite Hw. reflexivity.
Qed.

(** C2, on the code. Process 5 changed word 0 of page 0 from 0 to 1 after
    the fault. On the first promotion pass the original twin is overwritten
    with the working copy before the comparison, so the pass finds no
    differing word: the change counter of word 0 stays 0 and the
    cache-line arrays are left as they were (the recorder never ran). *)
Theorem C2_first_pass_records_nothing :
  load_word d32 (local_page d32 wrote0 heap_base) 0 = 1 /\
  load_word d32 (origTwinPage (first_entry wrote0)) 0 = 0 /\
  rd (wordChanges (snd first_pass0)) 0 = 0 /\
  _cacheLastthread (fst first_pass0) = _cacheLastthread wrote0 /\
  _cacheInvalidates (fst first_pass0) = _cacheInvalidates wrote0 /\
  load_word d32 (origTwinPage (snd first_pass0)) 0 = 1.
Proof. repeat apply conj; vm_compute; reflexivity. Qed.

(** ** The periodic check *)

(** A page whose resources are already allocated is recorded with the flag
    as the pages before it have left it, and a page that is allocated in
    this pass leaves the flag set. *)
Lemma periodicCheck_page_allocated (d : xdefines) (x : xpersist) (c : bool) (p : pageinfo) :
  shared p = true -> alloced p = true ->
  periodicCheck_page d (x, c) p
  = (let '(x2, p3) := recordChangesAndUpdate d x p c in (x2, c, p3)).
Proof.
  intros Hs Ha. unfold periodicCheck_page. rewrite Hs. simpl. rewrite Hs, Ha.
  reflexivity.
Qed.

Lemma periodicCheck_page_sets_flag (d : xdefines) (x : xpersist) (c : bool) (p : pageinfo) :
  shared p = true -> alloced p = false ->
  snd (fst (periodicCheck_page d (x, c) p)) = true.
Proof.
  intros Hs Ha. unfold periodicCheck_page. rewrite Hs. simpl. rewrite Hs, Ha. simpl.
  destruct (allocResourcesForSharedPage d x p) as [x' p'].
  destruct (recordChangesAndUpdate d x' p' true) as [x2 p3]. reflexivity.
Qed.

(** C3, on the code. Page 1 had its resources allocated in an earlier
    pass, page 0 gets them in this one; [createTempPage] is set for page 0
    and never cleared, so [recordChangesAndUpdate] is entered with
    [createTempPage = true] for page 1 as well. *)
Theorem C3_flag_stays_set_for_later_pages :
  flags wrote1_checked_wrote0 = [(0, true, false); (1, true, true)] /\
  trace (periodicCheck d32 wrote1_checked_wrote0)
  = trace wrote1_checked_wrote0 ++ [RecordChanges 0 true; RecordChanges 1 true].
Proof. repeat apply conj; vm_compute; reflexivity. Qed.

(** C4, on the code. After the write of 1 to word 0 of page 0 the periodic
    check runs twice with nothing in between. The first run records
    nothing and leaves the temporary twin as the pool handed it out; the
    second run compares the working copy with that buffer and records the
    word: its change count goes from 0 to 1 and the invalidation counter of
    its cache line from 0 to 1. *)
Theorem C4_second_check_records_again :
  rd (wordChanges (first_entry checked_once)) 0 = 0 /\
  rd (wordChanges (first_entry checked_twice)) 0 = 1 /\
  rd (_cacheInvalidates checked_once) 0 = 0 /\
  rd (_cacheInvalidates checked_twice) 0 = 1.
Proof. repeat apply conj; vm_compute; reflexivity. Qed.

(** What the periodic check leaves alone. *)

Lemma fold_left_preserves {A B} (P : A -> Prop) (f : A -> B -> A) (l : list B) (a : A) :
  (forall a' b, P a' -> P (f a' b)) -> P a -> P (fold_left f l a).
Proof.
  intros Hf. revert a. induction l as [|b l IH]; intros a Ha; simpl.
  - exact Ha.
  - apply IH, Hf, Ha.
Qed.








Lemma periodicCheck_loop_cons d xc k p r :
  periodicCheck_loop d xc ((k, p) :: r)
  = let '(x1, c1, p1) := periodicCheck_page d xc p in
    let '(xc2, r') := periodicCheck_loop d (x1, c1) r in
    (xc2, (k, p1) :: r').
Proof. reflexivity. Qed.





(** ** Commit of a shared page *)

Lemma fold_left_preserves_in {A B} (P : A -> Prop) (f : A -> B -> A) (l : list B) (a : A) :
  (forall a' b, In b l -> P a' -> P (f a' b)) -> P a -> P (fold_left f l a).
Proof.
  revert a. induction l as [|b l IH]; intros a Hf Ha; simpl.
  - exact Ha.
  - apply IH.
    + intros a' b' Hin. apply Hf. right. exact Hin.
    + apply Hf; [left; reflexivity | exact Ha].
Qed.








Lemma checkCommitWord_outside d local twin lo share so n :
  (n < so \/ so + wbytes d <= n)%nat ->
  checkCommitWord d local twin lo share so !! n = share !! n.
Proof.
  intros Hn. unfold checkCommitWord.
  apply (fold_left_preserves_in (fun sh => sh !! n = share !! n)); [|reflexivity].
  intros sh k Hk Hsh. apply in_seq in Hk.
  destruct (negb _); [|exact Hsh].
  rewrite list_lookup_insert_ne by lia. exact Hsh.
Qed.







(** ** The two bodies of [commitPageDiffs] *)

Lemma bytes_ok_Forall (buf : list Z) : bytes_ok buf = true -> Forall is_byte buf.
Proof.
  unfold bytes_ok. rewrite forallb_forall, Forall_forall.
  intros H b Hb. specialize (H b (proj1 (list_elem_of_In _ _) Hb)).
  apply andb_true_iff in H. unfold is_byte. lia.
Qed.

Lemma le_word_inj (a b : list Z) :
  length a = length b -> Forall is_byte a -> Forall is_byte b ->
  le_word a = le_word b -> a = b.
Proof.
  revert b. induction a as [|x a IH]; intros [|y b] Hlen Ha Hb Hw;
    try discriminate; [reflexivity|].
  apply Forall_cons in Ha as [Hx Ha]. apply Forall_cons in Hb as [Hy Hb].
  simpl in Hw, Hlen. unfold is_byte in Hx, Hy.
  assert (x = y) by lia. subst y.
  f_equal. apply IH; [lia | assumption | assumption | lia].
Qed.

Lemma le_bytes_le_word (bs : list Z) :
  Forall is_byte bs -> le_bytes (length bs) (le_word bs) = bs.
Proof.
  induction bs as [|b bs IH]; intros Hbs; [reflexivity|].
  apply Forall_cons in Hbs as [Hb Hbs]. unfold is_byte in Hb. simpl.
  replace ((b + 256 * le_word bs) mod 256) with b
    by (rewrite (Z.mul_comm 256), Z_mod_plus_full, Z.mod_small; lia).
  replace ((b + 256 * le_word bs) / 256) with (le_word bs)
    by (rewrite (Z.mul_comm 256), Z_div_plus_full, Z.div_small; lia).
  rewrite IH by assumption. reflexivity.
Qed.

Lemma length_store_bytes (bs buf : list Z) (off : nat) :
  length (store_bytes buf off bs) = length buf.
Proof.
  revert buf off. induction bs as [|b bs IH]; intros buf off; simpl; [reflexivity|].
  rewrite IH. apply length_insert.
Qed.

Lemma store_bytes_lookup (bs buf : list Z) (off n : nat) :
  store_bytes buf off bs !! n
  = if decide (off <= n < off + length bs /\ n < length buf)%nat
    then bs !! (n - off)%nat
    else buf !! n.
Proof.
  revert buf off. induction bs as [|b bs IH]; intros buf off; simpl.
  - case_decide; [lia | reflexivity].
  - rewrite IH, length_insert.
    destruct (decide (n = off)) as [-> | Hne].
    + rewrite Nat.sub_diag. simpl.
      case_decide; [lia|]. case_decide.
      * apply list_lookup_insert_eq. lia.
      * rewrite !lookup_ge_None_2; [reflexivity | lia | rewrite length_insert; lia].
    + rewrite list_lookup_insert_ne by lia.
      repeat case_decide; try lia; try reflexivity.
      replace (n - off)%nat with (S (n - S off)) by lia. reflexivity.
Qed.

Lemma bytes_at_lookup (buf : list Z) (off len k : nat) :
  (k < len)%nat -> bytes_at buf off len !! k = buf !! (off + k)%nat.
Proof.
  intros Hk. unfold bytes_at. rewrite lookup_take_lt by exact Hk. apply lookup_drop.
Qed.

Lemma length_bytes_at (buf : list Z) (off len : nat) :
  (off + len <= length buf)%nat -> length (bytes_at buf off len) = len.
Proof.
  intros H. unfold bytes_at. rewrite length_take, length_drop. lia.
Qed.

Lemma Forall_bytes_at (buf : list Z) (off len : nat) :
  Forall is_byte buf -> Forall is_byte (bytes_at buf off len).
Proof. intros H. unfold bytes_at. apply Forall_take, Forall_drop, H. Qed.

Lemma rdb_cons_0 (x : Z) (l : list Z) : rdb (x :: l) 0 = x.
Proof. reflexivity. Qed.

Lemma rdb_cons_S (x : Z) (l : list Z) (n : nat) : rdb (x :: l) (S n) = rdb l n.
Proof. reflexivity. Qed.

Lemma length_maskmove (src mask dest : list Z) (off : nat) :
  length (_mm_maskmoveu_si128 src mask dest off) = length dest.
Proof.
  revert mask dest off. induction src as [|s src IH]; intros [|m mask] dest off;
    cbn [_mm_maskmoveu_si128]; try reflexivity.
  rewrite IH. destruct (Z.testbit m 7); [apply length_insert | reflexivity].
Qed.

Lemma maskmove_lookup (src mask dest : list Z) (off n : nat) :
  length mask = length src ->
  _mm_maskmoveu_si128 src mask dest off !! n
  = if decide ((off <= n < off + length src)%nat /\ (n < length dest)%nat /\
               Z.testbit (rdb mask (n - off)) 7 = true)
    then Some (rdb src (n - off))
    else dest !! n.
Proof.
  revert mask dest off. induction src as [|s src IH]; intros [|m mask] dest off Hlen;
    try discriminate; cbn [_mm_maskmoveu_si128 length].
  - case_decide; [lia | reflexivity].
  - rewrite IH by (cbn [length] in Hlen; lia).
    assert (Hl : length (if Z.testbit m 7 then <[off:=s]> dest else dest) = length dest)
      by (destruct (Z.testbit m 7); [apply length_insert | reflexivity]).
    rewrite Hl.
    destruct (decide (n = off)) as [-> | Hne].
    + rewrite Nat.sub_diag, !rdb_cons_0.
      case_decide; [lia|].
      destruct (Z.testbit m 7) eqn:Hm.
      * case_decide as Hc.
        -- apply list_lookup_insert_eq. lia.
        -- rewrite !lookup_ge_None_2; [reflexivity | lia | rewrite length_insert; lia].
      * case_decide as Hc; [destruct Hc as (_ & _ & Hc); discriminate | reflexivity].
    + assert (Hd : (if Z.testbit m 7 then <[off:=s]> dest else dest) !! n = dest !! n).
      { destruct (Z.testbit m 7); [apply list_lookup_insert_ne; lia | reflexivity]. }
      rewrite Hd.
      destruct (decide (off < n)%nat) as [Hgt | Hle].
      * replace (n - off)%nat with (S (n - S off)) by lia.
        rewrite !rdb_cons_S.
        repeat case_decide; try reflexivity; exfalso;
          match goal with
          | Hn : ~ _, Hp : _ /\ _ |- _ =>
              destruct Hp as (? & ? & ?); apply Hn;
              split; [lia | split; [lia | assumption]]
          end.
      * repeat case_decide; try lia; reflexivity.
Qed.

Lemma lookup_rdb (l : list Z) (n : nat) : (n < length l)%nat -> l !! n = Some (rdb l n).
Proof.
  intros Hn. unfold rdb.
  destruct (lookup_lt_is_Some_2 l n Hn) as [x ->]. reflexivity.
Qed.

Lemma rdb_bytes_at (buf : list Z) (off len k : nat) :
  (k < len)%nat -> rdb (bytes_at buf off len) k = rdb buf (off + k).
Proof. intros Hk. unfold rdb. rewrite bytes_at_lookup by exact Hk. reflexivity. Qed.

(** The mask the vectorized loop derives has the top bit of a lane set
    exactly where the two chunks differ in that lane. *)
Lemma neq_lane (lc tc : list Z) (k : nat) :
  length lc = 16%nat -> length tc = 16%nat -> (k < 16)%nat ->
  Z.testbit (rdb (_mm_xor_si128 allones (_mm_cmpeq_epi8 lc tc)) k) 7
  = negb (rdb lc k =? rdb tc k).
Proof.
  intros Hl Ht Hk. unfold rdb, _mm_xor_si128, _mm_cmpeq_epi8, allones.
  rewrite !lookup_zip_with, lookup_replicate_2 by exact Hk.
  destruct (lookup_lt_is_Some_2 lc k ltac:(lia)) as [a ->].
  destruct (lookup_lt_is_Some_2 tc k ltac:(lia)) as [b ->].
  simpl. destruct (a =? b); reflexivity.
Qed.

Lemma sse_chunk_length local twin doff dest c :
  length (commitPageDiffs_sse_chunk local twin doff dest c) = length dest.
Proof. unfold commitPageDiffs_sse_chunk. apply length_maskmove. Qed.

Lemma sse_chunk_lookup local twin doff dest c n :
  (16 * c + 16 <= length local)%nat -> (16 * c + 16 <= length twin)%nat ->
  commitPageDiffs_sse_chunk local twin doff dest c !! n
  = if decide ((doff + 16 * c <= n < doff + 16 * c + 16)%nat /\ (n < length dest)%nat /\
               rdb local (n - doff) <> rdb twin (n - doff))
    then Some (rdb local (n - doff))
    else dest !! n.
Proof.
  intros Hl Ht. unfold commitPageDiffs_sse_chunk, _mm_load_si128.
  assert (Hlc : length (bytes_at local (16 * c) 16) = 16%nat)
    by (apply length_bytes_at; lia).
  assert (Htc : length (bytes_at twin (16 * c) 16) = 16%nat)
    by (apply length_bytes_at; lia).
  rewrite maskmove_lookup.
  2:{ unfold _mm_xor_si128, _mm_cmpeq_epi8, allones.
      rewrite !length_zip_with, length_replicate. lia. }
  rewrite Hlc.
  destruct (decide (doff + 16 * c <= n < doff + 16 * c + 16)%nat) as [Hin | Hout].
  - rewrite neq_lane by (assumption || lia).
    rewrite !rdb_bytes_at by lia.
    replace (16 * c + (n - (doff + 16 * c)))%nat with (n - doff)%nat by lia.
    apply decide_ext. rewrite negb_true_iff, Z.eqb_neq. tauto.
  - rewrite !decide_False by tauto. reflexivity.
Qed.

Lemma sse_loop_length local twin doff dest c :
  length (fold_left (commitPageDiffs_sse_chunk local twin doff) (seq 0 c) dest)
  = length dest.
Proof.
  apply (fold_left_preserves (fun l => length l = length dest)); [|reflexivity].
  intros l i Hl. rewrite sse_chunk_length. exact Hl.
Qed.

Lemma sse_loop_lookup local twin doff dest c n :
  (16 * c <= length local)%nat -> (16 * c <= length twin)%nat ->
  fold_left (commitPageDiffs_sse_chunk local twin doff) (seq 0 c) dest !! n
  = if decide ((doff <= n < doff + 16 * c)%nat /\ (n < length dest)%nat /\
               rdb local (n - doff) <> rdb twin (n - doff))
    then Some (rdb local (n - doff))
    else dest !! n.
Proof.
  induction c as [|c IH]; intros Hl Ht.
  - simpl. rewrite decide_False by lia. reflexivity.
  - rewrite seq_S, fold_left_app. cbn [fold_left Nat.add].
    rewrite sse_chunk_lookup, sse_loop_length, IH by lia.
    repeat case_decide; try reflexivity; exfalso; lia.
Qed.

Lemma le_bytes_load_word d (buf : list Z) (m : nat) :
  Forall is_byte buf -> (wbytes d * m + wbytes d <= length buf)%nat ->
  le_bytes (wbytes d) (load_word d buf m) = bytes_at buf (wbytes d * m) (wbytes d).
Proof.
  intros Hb Hlen. unfold load_word, load_word_at.
  pose proof (le_bytes_le_word (bytes_at buf (wbytes d * m) (wbytes d))
                (Forall_bytes_at buf _ _ Hb)) as H.
  rewrite length_bytes_at in H by exact Hlen. exact H.
Qed.

(** Two words of byte buffers are equal as numbers only if they are equal
    byte for byte. *)
Lemma load_word_eq_bytes d (a b : list Z) (m k : nat) :
  Forall is_byte a -> Forall is_byte b ->
  (wbytes d * m + wbytes d <= length a)%nat ->
  (wbytes d * m + wbytes d <= length b)%nat ->
  (k < wbytes d)%nat ->
  load_word d a m = load_word d b m ->
  rdb a (wbytes d * m + k) = rdb b (wbytes d * m + k).
Proof.
  intros Ha Hb Hla Hlb Hk Heq. unfold load_word, load_word_at in Heq.
  apply le_word_inj in Heq.
  - rewrite <- !(rdb_bytes_at _ _ (wbytes d)) by exact Hk. rewrite Heq. reflexivity.
  - rewrite !length_bytes_at by assumption. reflexivity.
  - apply Forall_bytes_at, Ha.
  - apply Forall_bytes_at, Hb.
Qed.

Lemma slow_word_length d local twin doff dest m :
  length (commitPageDiffs_slow_word d local twin doff dest m) = length dest.
Proof.
  unfold commitPageDiffs_slow_word, store_word_at.
  destruct (negb _); [apply length_store_bytes | reflexivity].
Qed.

Lemma slow_word_lookup d local twin doff dest m n :
  Forall is_byte local ->
  (wbytes d * m + wbytes d <= length local)%nat ->
  commitPageDiffs_slow_word d local twin doff dest m !! n
  = if decide ((doff + wbytes d * m <= n < doff + wbytes d * m + wbytes d)%nat /\
               (n < length dest)%nat /\
               load_word d local m <> load_word d twin m)
    then Some (rdb local (n - doff))
    else dest !! n.
Proof.
  intros Hb Hlen. unfold commitPageDiffs_slow_word, store_word_at.
  destruct (load_word d local m =? load_word d twin m) eqn:E; simpl.
  - apply Z.eqb_eq in E. rewrite decide_False by tauto. reflexivity.
  - apply Z.eqb_neq in E.
    rewrite le_bytes_load_word, store_bytes_lookup, length_bytes_at by assumption.
    destruct (decide (doff + wbytes d * m <= n < doff + wbytes d * m + wbytes d
                      /\ n < length dest)%nat) as [Hin | Hout].
    + rewrite decide_True by tauto.
      rewrite bytes_at_lookup by lia.
      replace (wbytes d * m + (n - (doff + wbytes d * m)))%nat with (n - doff)%nat by lia.
      apply lookup_rdb. lia.
    + rewrite decide_False by tauto. reflexivity.
Qed.

Lemma slow_loop_length d local twin doff dest m :
  length (fold_left (commitPageDiffs_slow_word d local twin doff) (seq 0 m) dest)
  = length dest.
Proof.
  apply (fold_left_preserves (fun l => length l = length dest)); [|reflexivity].
  intros l i Hl. rewrite slow_word_length. exact Hl.
Qed.

Lemma word_of_byte (w m j : nat) :
  (w * m <= j < w * m + w)%nat -> (j / w)%nat = m.
Proof.
  intros Hj. symmetry. apply (Nat.div_unique j w m (j - w * m)); lia.
Qed.

Lemma slow_loop_lookup d local twin doff dest m n :
  Forall is_byte local ->
  (wbytes d * m <= length local)%nat ->
  fold_left (commitPageDiffs_slow_word d local twin doff) (seq 0 m) dest !! n
  = if decide ((doff <= n < doff + wbytes d * m)%nat /\ (n < length dest)%nat /\
               load_word d local ((n - doff) / wbytes d)
               <> load_word d twin ((n - doff) / wbytes d))
    then Some (rdb local (n - doff))
    else dest !! n.
Proof.
  intros Hb. induction m as [|m IH]; intros Hlen.
  - simpl. rewrite decide_False by lia. reflexivity.
  - rewrite seq_S, fold_left_app. cbn [fold_left Nat.add].
    rewrite Nat.mul_succ_r in Hlen |- *.
    rewrite slow_word_lookup, slow_loop_length, IH by (assumption || lia).
    destruct (decide (doff + wbytes d * m <= n < doff + wbytes d * m + wbytes d)%nat)
      as [Hin | Hout].
    + rewrite (word_of_byte (wbytes d) m (n - doff)) by lia.
      repeat case_decide; try reflexivity; exfalso; lia.
    + repeat case_decide; try reflexivity; exfalso; lia.
Qed.

Lemma page_in_words (d : xdefines) :
  0 < sizeof_ulong d -> 0 <= PageSize d -> (sizeof_ulong d | PageSize d) ->
  pbytes d = (wbytes d * pwords d)%nat.
Proof.
  intros Hw Hp [q Hq]. unfold pbytes, wbytes, pwords.
  rewrite Hq, Z.div_mul by lia.
  rewrite Z.mul_comm, Z2Nat.inj_mul by nia. reflexivity.
Qed.

Lemma page_in_chunks (d : xdefines) :
  0 <= PageSize d -> (16 | PageSize d) ->
  pbytes d = (16 * Z.to_nat (PageSize d / 16))%nat.
Proof.
  intros Hp [q Hq]. unfold pbytes.
  rewrite Hq, Z.div_mul by lia.
  rewrite Z.mul_comm, Z2Nat.inj_mul by nia. reflexivity.
Qed.

(** C5, as the code has it. The vectorized body stores only the bytes that
    differ, the word-at-a-time body stores every byte of a word that
    differs. For page-sized working copy and twin and a destination page
    anywhere in the persistent mapping, the two bodies leave the same
    contents exactly when, in each word in which working copy and twin
    differ, the bytes in which they agree are already in the destination
    (as they are when the destination page still equals the twin). *)
Theorem C5_commit_bodies_agree (d : xdefines) (local twin dest : list Z) (doff : nat) :
  0 < sizeof_ulong d -> 0 <= PageSize d ->
  (sizeof_ulong d | PageSize d) -> (16 | PageSize d) ->
  length local = pbytes d -> length twin = pbytes d ->
  (doff + pbytes d <= length dest)%nat ->
  bytes_ok local = true -> bytes_ok twin = true ->
  agreeing_bytes_in_place d local twin dest doff <->
  commitPageDiffs_sse d local twin dest doff
  = commitPageDiffs_slow d local twin dest doff.
Proof.
  intros Hw Hp Hdw Hd16 Hll Hlt Hld Hbl Hbt.
  apply bytes_ok_Forall in Hbl, Hbt.
  pose proof (page_in_words d Hw Hp Hdw) as HPw.
  pose proof (page_in_chunks d Hp Hd16) as HPc.
  assert (Hw' : (0 < wbytes d)%nat) by (unfold wbytes; lia).
  unfold commitPageDiffs_sse, commitPageDiffs_slow.
  split.
  - intros Hagree. apply list_eq. intros n.
    rewrite sse_loop_lookup, slow_loop_lookup by (assumption || lia).
    rewrite <- HPw, <- HPc.
    destruct (decide (doff <= n < doff + pbytes d)%nat) as [Hin | Hout].
    2:{ rewrite !decide_False by tauto. reflexivity. }
    set (j := (n - doff)%nat).
    set (i := (j / wbytes d)%nat).
    set (k := (j mod wbytes d)%nat).
    assert (Hj : j = (wbytes d * i + k)%nat) by (apply Nat.div_mod_eq).
    assert (Hk : (k < wbytes d)%nat) by (apply Nat.mod_upper_bound; lia).
    assert (Hi : (i < pwords d)%nat).
    { apply Nat.Div0.div_lt_upper_bound. unfold j. lia. }
    assert (Hwi : (wbytes d * i + wbytes d <= pbytes d)%nat).
    { rewrite HPw, <- Nat.mul_succ_r. apply Nat.mul_le_mono_l. lia. }
    destruct (Z.eq_dec (load_word d local i) (load_word d twin i)) as [Heq | Hne].
    + assert (Hsame : rdb local j = rdb twin j).
      { rewrite Hj. apply (load_word_eq_bytes d); (assumption || lia). }
      rewrite !decide_False by tauto. reflexivity.
    + rewrite (decide_True (A:=option Z) _ _ (P:=_ /\ _ /\ load_word _ _ _ <> _))
        by (split; [exact Hin | split; [lia | exact Hne]]).
      destruct (Z.eq_dec (rdb local j) (rdb twin j)) as [Hsame | Hdiff].
      * rewrite decide_False by tauto.
        rewrite lookup_rdb by lia. f_equal.
        replace n with (doff + wbytes d * i + k)%nat at 1 by (unfold j in Hj; lia).
        rewrite Hj in Hsame |- *. apply Hagree; assumption.
      * rewrite decide_True by (split; [exact Hin | split; [lia | exact Hdiff]]).
        reflexivity.
  - intros Heq i k Hi Hk Hne Hsame.
    assert (Hwi : (wbytes d * i + wbytes d <= pbytes d)%nat).
    { rewrite HPw, <- Nat.mul_succ_r. apply Nat.mul_le_mono_l. lia. }
    set (n := (doff + wbytes d * i + k)%nat).
    assert (Hn : (n - doff = wbytes d * i + k)%nat) by (unfold n; lia).
    apply (f_equal (fun l => l !! n)) in Heq.
    rewrite sse_loop_lookup, slow_loop_lookup in Heq by (assumption || lia).
    rewrite <- HPw, <- HPc, Hn in Heq.
    rewrite (word_of_byte (wbytes d) i) in Heq by lia.
    rewrite decide_False in Heq by tauto.
    rewrite decide_True in Heq by (unfold n; split; [lia | split; [lia | exact Hne]]).
    rewrite lookup_rdb in Heq by (unfold n; lia).
    injection Heq as Heq. exact Heq.
Qed.

Lemma C5_commit_bodies_agree_witness :
  commitPageDiffs_sse d32 diff_local diff_twin diff_twin 0
  = commitPageDiffs_slow d32 diff_local diff_twin diff_twin 0.
Proof.
  apply (C5_commit_bodies_agree d32 diff_local diff_twin diff_twin 0).
  - vm_compute. reflexivity.
  - vm_compute. discriminate.
  - exists 1024. reflexivity.
  - exists 256. reflexivity.
  - vm_compute. reflexivity.
  - vm_compute. reflexivity.
  - apply Nat.leb_le. vm_compute. reflexivity.
  - vm_compute. reflexivity.
  - vm_compute. reflexivity.
  - intros i k _ _ _ H. exact (eq_sym H).
Defined.

(** C5, as stated, fails. The working copy changed byte 0 of a word and
    another process has put 9 into byte 1 of the same word of the
    destination: the vectorized body keeps the 9, the word-at-a-time body
    overwrites it with the working copy's 0. *)
Lemma C5_commit_bodies_differ :
  length diff_local = pbytes d32 /\
  length diff_twin = pbytes d32 /\
  length diff_dest = pbytes d32 /\
  rdb (commitPageDiffs_sse d32 diff_local diff_twin diff_dest 0) 1 = 9 /\
  rdb (commitPageDiffs_slow d32 diff_local diff_twin diff_dest 0) 1 = 0 /\
  commitPageDiffs_sse d32 diff_local diff_twin diff_dest 0
  <> commitPageDiffs_slow d32 diff_local diff_twin diff_dest 0.
Proof.
  assert (Hs : rdb (commitPageDiffs_sse d32 diff_local diff_twin diff_dest 0) 1 = 9)
    by (vm_compute; reflexivity).
  assert (Hw : rdb (commitPageDiffs_slow d32 diff_local diff_twin diff_dest 0) 1 = 0)
    by (vm_compute; reflexivity).
  split; [vm_compute; reflexivity|]. split; [vm_compute; reflexivity|].
  split; [vm_compute; reflexivity|]. split; [exact Hs|]. split; [exact Hw|].
  intros H. rewrite H in Hs. congruence.
Qed.

(** ** Transaction reset *)

Lemma trace_updateBatchedPages (d : xdefines) (x : xpersist) (n start : Z) :
  trace (updateBatchedPages d x n start)
  = trace x ++ [Madvise start (to_int (n * PageSize d));
                Mprotect start (to_int (n * PageSize d)) false].
Proof.
  unfold updateBatchedPages, updatePages. simpl. rewrite <- app_assoc. reflexivity.
Qed.

Lemma to_uint_small (z : Z) : 0 <= z < 4294967296 -> to_uint z = z.
Proof. intros H. unfold to_uint. apply Z.mod_small. exact H. Qed.

Lemma updateAll_page_join (d : xdefines) (s : batchstate) (pn : Z) (p : pageinfo) :
  (to_uint pn =? to_uint (bs_lastpage s + 1)) = true ->
  updateAll_page d s (pn, p)
  = {| bs_x := bs_x s; bs_batchedStart := bs_batchedStart s;
       bs_batchedPages := to_int (bs_batchedPages s + 1);
       bs_lastpage := bs_lastpage s |}.
Proof. intros H. unfold updateAll_page. rewrite H. reflexivity. Qed.

Lemma updateAll_page_break (d : xdefines) (s : batchstate) (pn : Z) (p : pageinfo) :
  (to_uint pn =? to_uint (bs_lastpage s + 1)) = false ->
  updateAll_page d s (pn, p)
  = {| bs_x := if 0 <? bs_batchedPages s
               then updateBatchedPages d (bs_x s) (bs_batchedPages s) (bs_batchedStart s)
               else bs_x s;
       bs_batchedStart := pageStart p; bs_batchedPages := 1;
       bs_lastpage := to_uint pn |}.
Proof. intros H. unfold updateAll_page. rewrite H. reflexivity. Qed.

Lemma updateAll_loop_three_in_a_row (d : xdefines) (x : xpersist) (k : Z)
    (p1 p2 p3 : pageinfo) :
  0 <= k < 2147483648 ->
  fold_left (updateAll_page d) [(k, p1); (k + 1, p2); (k + 2, p3)]
    {| bs_x := x; bs_batchedStart := 0; bs_batchedPages := 0;
       bs_lastpage := 0xFFFFFFF0 |}
  = {| bs_x := updateBatchedPages d x 2 (pageStart p1);
       bs_batchedStart := pageStart p3; bs_batchedPages := 1;
       bs_lastpage := to_uint (k + 2) |}.
Proof.
  intros Hk. cbn [fold_left].
  rewrite (updateAll_page_break d _ k p1).
  2:{ apply Z.eqb_neq. cbn [bs_lastpage]. rewrite to_uint_small by lia.
      replace (to_uint (0xFFFFFFF0 + 1)) with 4294967281
        by (vm_compute; reflexivity).
      lia. }
  cbn [bs_x bs_batchedPages bs_batchedStart bs_lastpage].
  rewrite (updateAll_page_join d _ (k + 1) p2).
  2:{ apply Z.eqb_eq. cbn [bs_lastpage]. rewrite (to_uint_small k) by lia.
      reflexivity. }
  cbn [bs_x bs_batchedPages bs_batchedStart bs_lastpage].
  rewrite (updateAll_page_break d _ (k + 2) p3).
  2:{ apply Z.eqb_neq. cbn [bs_lastpage].
      rewrite (to_uint_small k), !to_uint_small by lia. lia. }
  cbn [bs_x bs_batchedPages bs_batchedStart bs_lastpage].
  replace (to_int (1 + 1)) with 2 by (vm_compute; reflexivity).
  reflexivity.
Qed.

Lemma updateAll_nonempty (d : xdefines) (x : xpersist) (e : Z * pageinfo)
    (l : list (Z * pageinfo)) (s : batchstate) :
  _privatePagesList x = e :: l ->
  fold_left (updateAll_page d) (e :: l)
    {| bs_x := x; bs_batchedStart := 0; bs_batchedPages := 0;
       bs_lastpage := 0xFFFFFFF0 |} = s ->
  (0 <? bs_batchedPages s) = true ->
  trace (updateAll d x)
  = trace (updateBatchedPages d (bs_x s) (bs_batchedPages s) (bs_batchedStart s))
      ++ [PageEntryCleanup; PageStoreCleanup].
Proof.
  intros Hl Hs Hpos. unfold updateAll. rewrite Hl, Hs, Hpos.
  simpl. rewrite <- app_assoc. reflexivity.
Qed.

(** Three pages in a row are never reset by one call: the third is
    compared with the first, not with the second. *)
Lemma updateAll_three_in_a_row (d : xdefines) (x : xpersist) (k : Z)
    (p1 p2 p3 : pageinfo) :
  0 <= k < 2147483648 ->
  _privatePagesList x = [(k, p1); (k + 1, p2); (k + 2, p3)] ->
  trace (updateAll d x)
  = trace x ++ [Madvise (pageStart p1) (to_int (2 * PageSize d));
                Mprotect (pageStart p1) (to_int (2 * PageSize d)) false;
                Madvise (pageStart p3) (to_int (1 * PageSize d));
                Mprotect (pageStart p3) (to_int (1 * PageSize d)) false;
                PageEntryCleanup; PageStoreCleanup].
Proof.
  intros Hk Hl.
  rewrite (updateAll_nonempty d x _ _ _ Hl
             (updateAll_loop_three_in_a_row d x k p1 p2 p3 Hk) eq_refl).
  cbn [bs_x bs_batchedPages bs_batchedStart].
  rewrite !trace_updateBatchedPages, <- !app_assoc. reflexivity.
Qed.

(** C1, on the code. With exactly the pages 3, 4 and 5 in the private
    pages list, [updateAll] issues two discard-and-reprotect calls, one for
    pages 3 and 4 and one for page 5: [lastpage] is not advanced when a
    page joins the batch, so page 5 is compared with page 3. *)
Theorem C1_reset_of_345_issues_two_calls :
  fst <$> _privatePagesList dirty345 = [3; 4; 5] /\
  trace (updateAll d32 dirty345)
  = trace dirty345
      ++ [Madvise (heap_base + 3 * 4096) (2 * 4096);
          Mprotect (heap_base + 3 * 4096) (2 * 4096) false;
          Madvise (heap_base + 5 * 4096) 4096;
          Mprotect (heap_base + 5 * 4096) 4096 false;
          PageEntryCleanup; PageStoreCleanup].
Proof. repeat apply conj; vm_compute; reflexivity. Qed.

(** * Further properties *)

(** ** The private pages list *)

Lemma find_page_above (pn k : Z) (l : list (Z * pageinfo)) :
  keys_above k l -> pn <= k -> find_page pn l = None.
Proof.
  revert k. induction l as [|[k' v] l IH]; intros k Hk Hle; [reflexivity|].
  destruct Hk as [Hlt Hk]. simpl.
  destruct (pn =? k') eqn:E; [apply Z.eqb_eq in E; lia|].
  apply (IH k'); [exact Hk | lia].
Qed.

Lemma addPageEntry_above (pn k : Z) (cur : pageinfo) (l : list (Z * pageinfo)) :
  keys_above k l -> k < pn -> keys_above k (addPageEntry pn cur l).
Proof.
  revert k. induction l as [|[k' v] l IH]; intros k Hk Hlt.
  - simpl. auto.
  - destruct Hk as [Hkk' Hk]. simpl.
    destruct (pn <? k') eqn:E1.
    + apply Z.ltb_lt in E1. simpl. auto.
    + destruct (pn =? k') eqn:E2.
      * simpl. auto.
      * apply Z.ltb_ge in E1. apply Z.eqb_neq in E2.
        split; [exact Hkk'|]. apply IH; [exact Hk | lia].
Qed.

Lemma addPageEntry_map_insert (pn : Z) (cur : pageinfo)
    (l : list (Z * pageinfo)) :
  keys_increasing l ->
  find_page pn (addPageEntry pn cur l) = Some cur /\
  (forall k, k <> pn -> find_page k (addPageEntry pn cur l) = find_page k l) /\
  keys_increasing (addPageEntry pn cur l) /\
  length (addPageEntry pn cur l)
  = match find_page pn l with
    | Some _ => length l
    | None => S (length l)
    end.
Proof.
  intros Hs. repeat apply conj.
  - clear Hs. induction l as [|[k v] l IH]; simpl.
    + rewrite Z.eqb_refl. reflexivity.
    + destruct (pn <? k) eqn:E1; [simpl; rewrite Z.eqb_refl; reflexivity|].
      destruct (pn =? k) eqn:E2; simpl; rewrite E2; [reflexivity | exact IH].
  - clear Hs. intros k Hk. induction l as [|[k' v] l IH]; simpl.
    + apply Z.eqb_neq in Hk. rewrite Hk. reflexivity.
    + destruct (pn <? k') eqn:E1.
      * simpl. apply Z.eqb_neq in Hk. rewrite Hk. reflexivity.
      * destruct (pn =? k') eqn:E2; simpl.
        -- apply Z.eqb_eq in E2. subst k'. apply Z.eqb_neq in Hk. rewrite Hk.
           reflexivity.
        -- rewrite IH. reflexivity.
  - destruct l as [|[k v] l]; [exact I|]. simpl in Hs. simpl.
    destruct (pn <? k) eqn:E1.
    + apply Z.ltb_lt in E1. simpl. auto.
    + destruct (pn =? k) eqn:E2; [exact Hs|].
      apply Z.ltb_ge in E1. apply Z.eqb_neq in E2.
      simpl. apply addPageEntry_above; [exact Hs | lia].
  - assert (Hgen : forall k0, keys_above k0 l ->
              length (addPageEntry pn cur l)
              = match find_page pn l with
                | Some _ => length l
                | None => S (length l)
                end).
    { clear Hs. induction l as [|[k v] l IH]; intros k0 Hk; [reflexivity|].
      destruct Hk as [_ Hk]. simpl.
      destruct (pn <? k) eqn:E1.
      - apply Z.ltb_lt in E1.
        destruct (pn =? k) eqn:E2; [apply Z.eqb_eq in E2; lia|].
        rewrite (find_page_above pn k l Hk) by lia. reflexivity.
      - destruct (pn =? k) eqn:E2; [reflexivity|].
        simpl. rewrite (IH k Hk). destruct (find_page pn l); reflexivity. }
    destruct l as [|[k v] l]; [reflexivity|].
    apply (Hgen (k - 1)). simpl. split; [lia | exact Hs].
Qed.

(** X1. [addPageEntry] is an insert-or-overwrite on a map kept in key
    order: afterwards the record found under the page number is the new
    one, every other page number finds what it found before, the keys
    still increase strictly, and the list grows by one entry exactly when
    the page number was not there (a page dirtied again is never listed
    twice). *)
Theorem X1_addPageEntry_is_map_insert (pn : Z) (cur : pageinfo)
    (l : list (Z * pageinfo)) :
  keys_increasing l ->
  find_page pn (addPageEntry pn cur l) = Some cur /\
  (forall k, k <> pn -> find_page k (addPageEntry pn cur l) = find_page k l) /\
  keys_increasing (addPageEntry pn cur l) /\
  length (addPageEntry pn cur l)
  = match find_page pn l with
    | Some _ => length l
    | None => S (length l)
    end.
Proof. apply addPageEntry_map_insert. Qed.

Lemma X1_addPageEntry_is_map_insert_witness :
  find_page 4 (addPageEntry 4 (first_entry no_region)
                 [(3, first_entry no_region); (5, first_entry no_region)])
  = Some (first_entry no_region).
Proof.
  refine (proj1 (X1_addPageEntry_is_map_insert 4 (first_entry no_region)
                   [(3, first_entry no_region); (5, first_entry no_region)] _)).
  cbn [keys_increasing keys_above]. split; [lia | exact I].
Defined.

(** ** The write interceptor, continued *)

Lemma land_lnot_mask (a k : Z) :
  0 <= k -> Z.land a (Z.lnot (2 ^ k - 1)) = 2 ^ k * (a / 2 ^ k).
Proof.
  intros Hk. rewrite <- Z.ldiff_land.
  replace (2 ^ k - 1) with (Z.ones k) by (rewrite Z.ones_equiv; lia).
  rewrite Z.ldiff_ones_r by exact Hk.
  rewrite Z.shiftl_mul_pow2, Z.shiftr_div_pow2 by exact Hk. lia.
Qed.

Lemma memcpy_fresh (buf : list Z) (off n : nat) :
  memcpy [] (bytes_at buf off n) n = bytes_at buf off n.
Proof.
  unfold memcpy, bytes_at. rewrite drop_nil, app_nil_r.
  apply take_ge. rewrite length_take. lia.
Qed.

(** What [handleWrite] leaves in the page list and in the user counters. *)
Lemma handleWrite_entry (d : xdefines) (x : xpersist) (addr : Z) :
  let pn := computePage d (to_int (to_ulong d (addr - base x))) in
  let ps := Z.land addr (Z.lnot (PAGE_SIZE_MASK d)) in
  find_page pn (_privatePagesList (handleWrite d x addr))
  = Some {| pageNo := pn; pageStart := ps;
            origTwinPage := local_page d x ps;
            tempTwinPage := []; wordChanges := [];
            shared := negb (to_int (rd (_pageUsers x) pn) =? 0);
            alloced := false |} /\
  _pageUsers (handleWrite d x addr)
  = wr (_pageUsers x) pn (to_ulong d (rd (_pageUsers x) pn + 1)).
Proof.
  intros pn ps. unfold handleWrite, atomic_increment_and_return.
  fold pn. fold ps. cbn [_privatePagesList set_privatePagesList set_pageUsers emit
                          _pageUsers].
  split; [|reflexivity].
  match goal with
  | |- find_page _ (addPageEntry _ ?c ?l) = _ =>
      assert (Hf : forall l', find_page pn (addPageEntry pn c l') = Some c)
  end.
  { intros l'. induction l' as [|[k v] l' IH]; simpl.
    - rewrite Z.eqb_refl. reflexivity.
    - destruct (pn <? k) eqn:E1; [simpl; rewrite Z.eqb_refl; reflexivity|].
      destruct (pn =? k) eqn:E2; simpl; rewrite E2; [reflexivity | exact IH]. }
  rewrite Hf. f_equal.
  change (local_page d (emit x (Mprotect ps (PageSize d) true)) ps)
    with (local_page d x ps).
  unfold local_page. rewrite memcpy_fresh. reflexivity.
Qed.

(** X2. The page start [handleWrite] computes by masking the faulting
    address is the start of the page that holds the address: it is a
    multiple of the page size, at most the address, and less than a page
    below it. This is the range it makes writable. *)
Theorem X2_handleWrite_page_start (d : xdefines) (x : xpersist) (addr k : Z) :
  0 <= k -> PageSize d = 2 ^ k -> PAGE_SIZE_MASK d = PageSize d - 1 ->
  let ps := Z.land addr (Z.lnot (PAGE_SIZE_MASK d)) in
  ps = PageSize d * (addr / PageSize d) /\
  ps <= addr < ps + PageSize d /\
  trace (handleWrite d x addr) = trace x ++ [Mprotect ps (PageSize d) true].
Proof.
  intros Hk HP HM ps.
  assert (Hps : ps = PageSize d * (addr / PageSize d)).
  { unfold ps. rewrite HM, HP. apply land_lnot_mask. exact Hk. }
  assert (Hpos : 0 < PageSize d) by (rewrite HP; apply Z.pow_pos_nonneg; lia).
  split; [exact Hps|]. split.
  - rewrite Hps.
    pose proof (Z.div_mod addr (PageSize d) ltac:(lia)).
    pose proof (Z.mod_pos_bound addr (PageSize d) Hpos). lia.
  - reflexivity.
Qed.

Lemma X2_handleWrite_page_start_witness :
  Z.land (heap_base + 8) (Z.lnot (PAGE_SIZE_MASK d32))
  = PageSize d32 * ((heap_base + 8) / PageSize d32).
Proof.
  refine (proj1 (X2_handleWrite_page_start d32 heap0 (heap_base + 8) 12 _ _ _)).
  - lia.
  - reflexivity.
  - reflexivity.
Defined.

(** X3. In a region of bytes whose working mapping starts on a page
    boundary, a fault at an address in the first 2 GiB of the region files
    the page under the index of the page that holds the address, with the
    start address of that page, with a twin that is the copy of that page
    of the working mapping as it is at the fault, marked shared exactly
    when the page's user counter was not zero, and with no extra resources;
    the persistent mapping, the cache-line arrays and the word-change
    array are not touched. *)
Theorem X3_handleWrite_files_the_faulting_page (d : xdefines) (x : xpersist)
    (addr k : Z) :
  0 <= k -> PageSize d = 2 ^ k -> PAGE_SIZE_MASK d = PageSize d - 1 ->
  sizeof_Type d = 1 -> 4 <= sizeof_ulong d ->
  (PageSize d | base x) ->
  0 <= addr - base x < 2147483648 ->
  let pn := (addr - base x) / PageSize d in
  find_page pn (_privatePagesList (handleWrite d x addr))
  = Some {| pageNo := pn; pageStart := base x + PageSize d * pn;
            origTwinPage :=
              bytes_at (transient x) (Z.to_nat (PageSize d * pn)) (pbytes d);
            tempTwinPage := []; wordChanges := [];
            shared := negb (to_int (rd (_pageUsers x) pn) =? 0);
            alloced := false |} /\
  persistent (handleWrite d x addr) = persistent x /\
  transient (handleWrite d x addr) = transient x /\
  _cacheInvalidates (handleWrite d x addr) = _cacheInvalidates x /\
  _cacheLastthread (handleWrite d x addr) = _cacheLastthread x /\
  _wordChanges (handleWrite d x addr) = _wordChanges x.
Proof.
  intros Hk HP HM HT Hw [b Hb] Hoff pn.
  assert (Hpos : 0 < PageSize d) by (rewrite HP; apply Z.pow_pos_nonneg; lia).
  assert (Hpn : computePage d (to_int (to_ulong d (addr - base x))) = pn)
    by (apply computePage_of_byte_offset; assumption).
  assert (Hps : Z.land addr (Z.lnot (PAGE_SIZE_MASK d)) = base x + PageSize d * pn).
  { rewrite HM, HP, land_lnot_mask by exact Hk. rewrite <- HP. unfold pn.
    replace addr with ((addr - base x) + b * PageSize d) at 1 by lia.
    rewrite Z.div_add by lia. lia. }
  destruct (handleWrite_entry d x addr) as [He _].
  cbv zeta in He. rewrite Hpn, Hps in He.
  split.
  - rewrite He. f_equal. unfold local_page. f_equal.
    replace (base x + PageSize d * pn - base x) with (PageSize d * pn) by lia.
    reflexivity.
  - repeat apply conj; reflexivity.
Qed.

Lemma X3_handleWrite_files_the_faulting_page_witness :
  transient (handleWrite d32 heap0 (heap_base + 4100)) = transient heap0.
Proof.
  refine (proj1 (proj2 (proj2 (X3_handleWrite_files_the_faulting_page d32 heap0
                                 (heap_base + 4100) 12 _ _ _ _ _ _ _)))).
  - lia.
  - reflexivity.
  - reflexivity.
  - reflexivity.
  - vm_compute. discriminate.
  - exists 256. vm_compute. reflexivity.
  - vm_compute. split; [discriminate | reflexivity].
Defined.

(** X4. For an address inside a heap region of bytes whose size is a whole
    number of pages, the page index [handleWrite] computes is inside the
    user-counter array, and the fault raises that page's counter by one
    and no other. *)
Theorem X4_handleWrite_counts_one_user (d : xdefines) (x : xpersist) (addr : Z) :
  0 < PageSize d -> sizeof_Type d = 1 -> 4 <= sizeof_ulong d ->
  (PageSize d | NElts d) -> NElts d <= 2147483648 ->
  length (_pageUsers x) = Z.to_nat (NElts d / PageSize d) ->
  0 <= addr - base x < NElts d ->
  let pn := (addr - base x) / PageSize d in
  0 <= pn /\ (Z.to_nat pn < length (_pageUsers x))%nat /\
  rd (_pageUsers (handleWrite d x addr)) pn = to_ulong d (rd (_pageUsers x) pn + 1) /\
  forall q, 0 <= q -> q <> pn ->
    rd (_pageUsers (handleWrite d x addr)) q = rd (_pageUsers x) q.
Proof.
  intros Hpos HT Hw [q0 Hq0] Hcap Hlen Hoff pn.
  assert (Hpn : computePage d (to_int (to_ulong d (addr - base x))) = pn)
    by (apply computePage_of_byte_offset; (assumption || lia)).
  assert (H0 : 0 <= pn) by (apply Z.div_pos; lia).
  assert (Hlt : pn < NElts d / PageSize d).
  { rewrite Hq0, Z.div_mul by lia.
    apply Z.div_lt_upper_bound; [exact Hpos|]. lia. }
  destruct (handleWrite_entry d x addr) as [_ Hu].
  cbv zeta in Hu. rewrite Hpn in Hu. rewrite Hu.
  split; [exact H0|]. split; [lia|]. split.
  - unfold rd at 1, wr. rewrite list_lookup_insert_eq by lia. reflexivity.
  - intros q Hq Hne. unfold rd at 1, wr.
    rewrite list_lookup_insert_ne by lia. reflexivity.
Qed.

Lemma X4_handleWrite_counts_one_user_witness :
  rd (_pageUsers (handleWrite d32 heap0 (heap_base + 4100)))
     ((heap_base + 4100 - base heap0) / PageSize d32)
  = to_ulong d32 (rd (_pageUsers heap0)
                     ((heap_base + 4100 - base heap0) / PageSize d32) + 1).
Proof.
  refine (proj1 (proj2 (proj2 (X4_handleWrite_counts_one_user d32 heap0
                                 (heap_base + 4100) _ _ _ _ _ _ _)))).
  - reflexivity.
  - reflexivity.
  - vm_compute. discriminate.
  - exists 8. reflexivity.
  - vm_compute. discriminate.
  - vm_compute. reflexivity.
  - vm_compute. split; [discriminate | reflexivity].
Defined.

(** ** The cross-process counters *)

Lemma to_ulong_small (d : xdefines) (z : Z) :
  4 <= sizeof_ulong d -> 0 <= z < 2147483648 -> to_ulong d z = z.
Proof.
  intros Hw Hz. unfold to_ulong. apply Z.mod_small.
  assert (2147483648 <= 2 ^ (8 * sizeof_ulong d)).
  { change 2147483648 with (2 ^ 31). apply Z.pow_le_mono_r; lia. }
  lia.
Qed.

(** X5. [recordCacheInvalidates] leaves the calling process as the last
    writer of the cache line and touches no other line. It reports an
    interleaving, and raises the line's invalidation counter by one,
    exactly when the previous last writer was another process; and a
    second call by the same process straight after reports none and
    changes neither array (a process does not invalidate its own line). *)
Theorem X5_recordCacheInvalidates_counts_other_writers (d : xdefines) (x : xpersist)
    (pn cacheNo : Z) :
  4 <= sizeof_ulong d -> 0 < getpid x < 2147483648 ->
  0 <= cacheNo ->
  (Z.to_nat cacheNo < length (_cacheLastthread x))%nat ->
  (Z.to_nat cacheNo < length (_cacheInvalidates x))%nat ->
  let last := to_int (rd (_cacheLastthread x) cacheNo) in
  let x1 := fst (recordCacheInvalidates d x pn cacheNo) in
  let r1 := snd (recordCacheInvalidates d x pn cacheNo) in
  rd (_cacheLastthread x1) cacheNo = getpid x /\
  (forall c, 0 <= c -> c <> cacheNo ->
     rd (_cacheLastthread x1) c = rd (_cacheLastthread x) c /\
     rd (_cacheInvalidates x1) c = rd (_cacheInvalidates x) c) /\
  r1 = (if negb (last =? 0) && negb (last =? getpid x) then 1 else 0) /\
  rd (_cacheInvalidates x1) cacheNo
  = (if negb (last =? 0) && negb (last =? getpid x)
     then to_ulong d (rd (_cacheInvalidates x) cacheNo + 1)
     else rd (_cacheInvalidates x) cacheNo) /\
  snd (recordCacheInvalidates d x1 pn cacheNo) = 0 /\
  _cacheInvalidates (fst (recordCacheInvalidates d x1 pn cacheNo))
  = _cacheInvalidates x1 /\
  _cacheLastthread (fst (recordCacheInvalidates d x1 pn cacheNo))
  = _cacheLastthread x1.
Proof.
  intros Hw Hpid Hc Hl1 Hl2 last x1 r1.
  assert (Hpu : to_ulong d (getpid x) = getpid x) by (apply to_ulong_small; lia).
  assert (Hx1 : _cacheLastthread x1 = wr (_cacheLastthread x) cacheNo (getpid x)).
  { unfold x1, recordCacheInvalidates, atomic_exchange. rewrite Hpu.
    destruct (negb _ && negb _); reflexivity. }
  assert (Hp1 : getpid x1 = getpid x).
  { unfold x1, recordCacheInvalidates, atomic_exchange.
    destruct (negb _ && negb _); reflexivity. }
  assert (Hlast : rd (_cacheLastthread x1) cacheNo = getpid x).
  { rewrite Hx1. unfold rd, wr. rewrite list_lookup_insert_eq by exact Hl1.
    reflexivity. }
  split; [exact Hlast|]. split.
  { intros c Hc0 Hne. split.
    - rewrite Hx1. unfold rd, wr. rewrite list_lookup_insert_ne by lia. reflexivity.
    - unfold x1, recordCacheInvalidates, atomic_exchange, atomic_increment.
      destruct (negb _ && negb _); [|reflexivity].
      cbn [fst _cacheInvalidates set_cacheInvalidates set_cacheLastthread].
      unfold rd at 1, wr. rewrite list_lookup_insert_ne by lia. reflexivity. }
  split.
  { unfold r1, recordCacheInvalidates, atomic_exchange. fold last.
    destruct (negb _ && negb _); reflexivity. }
  split.
  { unfold x1, recordCacheInvalidates, atomic_exchange, atomic_increment. fold last.
    destruct (negb _ && negb _); [|reflexivity].
    cbn [fst _cacheInvalidates set_cacheInvalidates set_cacheLastthread].
    unfold rd at 1, wr. rewrite list_lookup_insert_eq by exact Hl2. reflexivity. }
  assert (Hsecond : negb (to_int (rd (_cacheLastthread x1) cacheNo) =? 0)
                    && negb (to_int (rd (_cacheLastthread x1) cacheNo) =? getpid x1)
                    = false).
  { rewrite Hlast, Hp1, to_int_small by lia. rewrite Z.eqb_refl.
    apply andb_false_r. }
  unfold recordCacheInvalidates at 1 2 3, atomic_exchange. rewrite Hsecond.
  cbn [fst snd _cacheInvalidates _cacheLastthread set_cacheLastthread].
  split; [reflexivity|]. split; [reflexivity|].
  rewrite Hp1, Hpu. unfold wr. apply list_insert_id.
  rewrite Hx1. unfold wr. apply list_lookup_insert_eq. exact Hl1.
Qed.

Lemma X5_recordCacheInvalidates_counts_other_writers_witness :
  rd (_cacheLastthread (fst (recordCacheInvalidates d32 contended 0 0))) 0
  = getpid contended.
Proof.
  refine (proj1 (X5_recordCacheInvalidates_counts_other_writers d32 contended 0 0
                   _ _ _ _ _)).
  - vm_compute. discriminate.
  - vm_compute. split; reflexivity.
  - lia.
  - apply Nat.ltb_lt. vm_compute. reflexivity.
  - apply Nat.ltb_lt. vm_compute. reflexivity.
Defined.

(** The owner a fresh record has after a run of calls by processes whose
    ids fit the owner field. *)
Lemma recordWordChanges_owner_step (mine changes : Z) (w : wordchangeinfo) :
  0 < mine < 0xFFFF ->
  tid (recordWordChanges mine w changes)
  = (if tid w =? 0 then mine
     else if (tid w =? mine) || (tid w =? 0xFFFF) then tid w
     else 0xFFFF).
Proof.
  intros Hm. unfold recordWordChanges. cbn [tid].
  destruct (tid w =? 0) eqn:E0.
  - unfold to_ushort. apply Z.mod_small. lia.
  - cbn [negb andb].
    destruct (tid w =? mine); [reflexivity|].
    destruct (tid w =? 0xFFFF); reflexivity.
Qed.

(** X6. Ownership of a word-change record. Starting from a record with no
    owner, after a run of [recordWordChanges] calls by processes whose ids
    lie strictly between 0 and [0xFFFF] the owner is the id of the first
    caller if every call came from that process, and the shared sentinel
    as soon as one came from another; the version has advanced by the sum
    of the counts in either case. *)
Theorem X6_recordWordChanges_ownership (p changes : Z) (rest : list (Z * Z))
    (w : wordchangeinfo) :
  tid w = 0 ->
  0 < p < 0xFFFF ->
  Forall (fun c => 0 < fst c < 0xFFFF) rest ->
  tid (recordWordChanges_many ((p, changes) :: rest) w)
  = (if forallb (fun c => fst c =? p) rest then p else 0xFFFF) /\
  to_ushort (version (recordWordChanges_many ((p, changes) :: rest) w))
  = to_ushort (version w + total_changes ((p, changes) :: rest)).
Proof.
  intros Hw Hp Hrest.
  assert (Hver : forall calls w',
             to_ushort (version (recordWordChanges_many calls w'))
             = to_ushort (version w' + total_changes calls)).
  { induction calls as [|[q c] calls IH]; intros w'.
    - simpl. f_equal. lia.
    - unfold recordWordChanges_many in *. simpl. rewrite IH. simpl.
      rewrite to_ushort_add_l. f_equal. lia. }
  split; [|apply Hver].
  unfold recordWordChanges_many. cbn [fold_left fst snd].
  assert (H1 : tid (recordWordChanges p w changes) = p).
  { rewrite recordWordChanges_owner_step by exact Hp. rewrite Hw. reflexivity. }
  set (w1 := recordWordChanges p w changes) in *. clearbody w1. clear Hw w.
  revert w1 H1. induction Hrest as [|[q c] rest Hq Hrest IH]; intros w1 H1.
  - simpl. exact H1.
  - cbn [fold_left forallb fst snd] in *.
    destruct (q =? p) eqn:E.
    + apply Z.eqb_eq in E. subst q. cbn [andb]. apply IH.
      rewrite recordWordChanges_owner_step by exact Hp. rewrite H1.
      rewrite Z.eqb_refl. destruct (p =? 0) eqn:E0; [apply Z.eqb_eq in E0; lia|].
      reflexivity.
    + cbn [andb].
      assert (Hs : tid (recordWordChanges q w1 c) = 0xFFFF).
      { rewrite recordWordChanges_owner_step by exact Hq. rewrite H1.
        destruct (p =? 0) eqn:E0; [apply Z.eqb_eq in E0; lia|].
        rewrite Z.eqb_sym, E.
        destruct (p =? 0xFFFF) eqn:E1; [apply Z.eqb_eq in E1; lia|]. reflexivity. }
      fold (recordWordChanges_many rest (recordWordChanges q w1 c)).
      destruct (recordWordChanges_many_shared rest _ Hs) as [-> | [-> ->]];
        [reflexivity | exact Hs].
Qed.

Lemma X6_recordWordChanges_ownership_witness :
  tid (recordWordChanges_many ((5, 1) :: [(5, 2); (7, 1)]) {| tid := 0; version := 0 |})
  = (if forallb (fun c => fst c =? 5) [(5, 2); (7, 1)] then 5 else 0xFFFF).
Proof.
  refine (proj1 (X6_recordWordChanges_ownership 5 1 [(5, 2); (7, 1)]
                   {| tid := 0; version := 0 |} _ _ _)).
  - reflexivity.
  - lia.
  - repeat constructor.
Defined.

(** X7. The owner field holds 16 bits and is compared with the whole
    process id. A process whose id does not fit (and whose low 16 bits are
    neither 0 nor [0xFFFF]) is recorded under its low 16 bits by its first
    call on a fresh record and no longer recognised by its second: the
    record turns to the shared sentinel though only one process wrote. *)
Theorem X7_recordWordChanges_wide_pid (mine c1 c2 : Z) (w : wordchangeinfo) :
  tid w = 0 ->
  65536 <= mine ->
  mine mod 65536 <> 0 -> mine mod 65536 <> 0xFFFF ->
  tid (recordWordChanges mine w c1) = mine mod 65536 /\
  tid (recordWordChanges mine (recordWordChanges mine w c1) c2) = 0xFFFF.
Proof.
  intros Hw Hm H0 Hf.
  assert (H1 : tid (recordWordChanges mine w c1) = mine mod 65536).
  { unfold recordWordChanges. cbn [tid]. rewrite Hw. reflexivity. }
  split; [exact H1|].
  unfold recordWordChanges at 1. cbn [tid]. rewrite H1.
  pose proof (Z.mod_pos_bound mine 65536 ltac:(lia)).
  destruct (mine mod 65536 =? 0) eqn:E0; [apply Z.eqb_eq in E0; lia|].
  destruct (mine mod 65536 =? mine) eqn:E1; [apply Z.eqb_eq in E1; lia|].
  destruct (mine mod 65536 =? 0xFFFF) eqn:E2; [apply Z.eqb_eq in E2; lia|].
  reflexivity.
Qed.

Lemma X7_recordWordChanges_wide_pid_witness :
  tid (recordWordChanges 65541 {| tid := 0; version := 0 |} 1) = 65541 mod 65536 /\
  tid (recordWordChanges 65541
         (recordWordChanges 65541 {| tid := 0; version := 0 |} 1) 1) = 0xFFFF.
Proof.
  apply (X7_recordWordChanges_wide_pid 65541 1 1 {| tid := 0; version := 0 |}).
  - reflexivity.
  - lia.
  - vm_compute. discriminate.
  - vm_compute. discriminate.
Defined.

(** ** Interim recording, continued *)

Lemma same_memory_refl (x : xpersist) : same_memory x x.
Proof. unfold same_memory. repeat apply conj; reflexivity. Qed.

Lemma same_memory_trans (x y z : xpersist) :
  same_memory x y -> same_memory y z -> same_memory x z.
Proof.
  unfold same_memory.
  intros (A1 & A2 & A3 & A4 & A5 & A6 & A7 & A8 & A9)
         (B1 & B2 & B3 & B4 & B5 & B6 & B7 & B8 & B9).
  repeat apply conj; congruence.
Qed.

Lemma recordCacheInvalidates_same_memory d x pn cacheNo :
  same_memory x (fst (recordCacheInvalidates d x pn cacheNo)).
Proof.
  unfold recordCacheInvalidates, atomic_exchange, same_memory.
  destruct (negb _ && negb _); repeat apply conj; reflexivity.
Qed.

Lemma touchCacheLine_same_memory d q s j :
  same_memory (ds_x s) (ds_x (touchCacheLine d q s j)).
Proof.
  unfold touchCacheLine. destruct (negb _); [|apply same_memory_refl].
  match goal with |- context [recordCacheInvalidates ?e ?y ?a ?b] =>
    pose proof (recordCacheInvalidates_same_memory e y a b) as H;
    destruct (recordCacheInvalidates e y a b) as [x1 inter] end.
  exact H.
Qed.

Lemma recordChanges_word_same_memory d c local sp i :
  same_memory (ds_x (fst sp)) (ds_x (fst (recordChanges_word d c local sp i))).
Proof.
  destruct sp as [s p]. unfold recordChanges_word.
  destruct (negb _); [|apply same_memory_refl]. simpl.
  apply touchCacheLine_same_memory.
Qed.

Lemma emit_same_memory x e : same_memory x (emit x e).
Proof. unfold same_memory. repeat apply conj; reflexivity. Qed.

(** [recordChangesAndUpdate] as its loop. *)
Lemma recordChangesAndUpdate_loop d x p c :
  recordChangesAndUpdate d x p c
  = (let x0 := emit x (RecordChanges (pageNo p) c) in
     let local := local_page d x (pageStart p) in
     let p0 := if c then set_origTwinPage p (memcpy (origTwinPage p) local (pbytes d))
               else p in
     let r := fold_left (recordChanges_word d c local) (seq 0 (pwords d))
                ({| ds_x := x0; ds_recordedCacheNo := 0xFFFFFFFF;
                    ds_interWrites := 0 |}, p0) in
     (ds_x (fst r), snd r)).
Proof.
  unfold recordChangesAndUpdate. cbv zeta.
  change (local_page d (emit x (RecordChanges (pageNo p) c)) (pageStart p))
    with (local_page d x (pageStart p)).
  destruct (fold_left _ _ _) as [s p1]. reflexivity.
Qed.

Lemma recordChangesAndUpdate_same_memory d x p c :
  same_memory x (fst (recordChangesAndUpdate d x p c)).
Proof.
  rewrite recordChangesAndUpdate_loop. cbv zeta. cbn [fst].
  match goal with
  | |- context [fold_left ?f ?l ?a] =>
      apply (fold_left_preserves (fun sp => same_memory x (ds_x (fst sp))) f l a)
  end.
  - intros sp i Hsp. eapply same_memory_trans; [exact Hsp|].
    apply recordChanges_word_same_memory.
  - apply emit_same_memory.
Qed.

Lemma bytes_at_eq_of_lookup (a b : list Z) (off len : nat) :
  (forall k, (k < len)%nat -> a !! (off + k)%nat = b !! (off + k)%nat) ->
  bytes_at a off len = bytes_at b off len.
Proof.
  intros H. apply list_eq. intros k.
  destruct (decide (k < len)%nat) as [Hk | Hk].
  - rewrite !bytes_at_lookup by exact Hk. apply H. exact Hk.
  - unfold bytes_at. rewrite !lookup_take_ge by lia. reflexivity.
Qed.

Lemma rolled_forward_start d local p : rolled_forward d local p 0 p.
Proof.
  unfold rolled_forward. repeat apply conj; try reflexivity.
  all: intros n; rewrite decide_False by lia; reflexivity.
Qed.

Lemma rolled_forward_step d local p m s p' :
  (0 < wbytes d)%nat ->
  Forall is_byte local -> Forall is_byte (tempTwinPage p) ->
  (wbytes d * m + wbytes d <= length local)%nat ->
  (wbytes d * m + wbytes d <= length (tempTwinPage p))%nat ->
  (m < length (wordChanges p))%nat ->
  rolled_forward d local p m p' ->
  rolled_forward d local p (S m) (snd (recordChanges_word d false local (s, p') m)).
Proof.
  intros Hw Hbl Hbt Hll Hlt Hlc (L1 & T1 & L2 & C1 & O1 & N1 & S1 & Sh1 & A1).
  assert (Hload : load_word d (tempTwinPage p') m = load_word d (tempTwinPage p) m).
  { unfold load_word, load_word_at. f_equal. apply bytes_at_eq_of_lookup.
    intros k Hk. rewrite T1. rewrite decide_False by lia. reflexivity. }
  unfold recordChanges_word. cbn [negb]. rewrite Hload.
  destruct (load_word d local m =? load_word d (tempTwinPage p) m) eqn:E; cbn [negb snd].
  - apply Z.eqb_eq in E.
    unfold rolled_forward. repeat apply conj; try assumption.
    + intros n. rewrite T1.
      destruct (decide (n < wbytes d * m)%nat) as [H1 | H1].
      * rewrite decide_True by lia. reflexivity.
      * destruct (decide (n < wbytes d * S m)%nat) as [H2 | H2]; [|reflexivity].
        replace n with (wbytes d * m + (n - wbytes d * m))%nat by lia.
        rewrite !lookup_rdb by lia. f_equal. symmetry.
        apply (load_word_eq_bytes d); (assumption || lia).
    + intros j. rewrite C1.
      destruct (decide (j = m)) as [-> | Hj].
      * rewrite !decide_False by (intros [? ?]; (lia || contradiction)).
        reflexivity.
      * apply decide_ext. split; intros [? ?]; split; (lia || assumption).
  - apply Z.eqb_neq in E.
    unfold rolled_forward.
    cbn [tempTwinPage wordChanges set_pageWordChanges set_tempTwinPage origTwinPage
         pageNo pageStart shared alloced].
    unfold store_word, store_word_at.
    rewrite le_bytes_load_word by assumption.
    repeat apply conj; try assumption.
    + rewrite length_store_bytes. exact L1.
    + intros n. rewrite store_bytes_lookup, length_bytes_at, L1 by exact Hll.
      destruct (decide (wbytes d * m <= n < wbytes d * m + wbytes d
                        /\ n < length (tempTwinPage p))%nat) as [Hin | Hout].
      * rewrite decide_True by lia. rewrite bytes_at_lookup by lia.
        f_equal. lia.
      * rewrite T1.
        destruct (decide (n < wbytes d * m)%nat) as [H1 | H1].
        -- rewrite decide_True by lia. reflexivity.
        -- rewrite decide_False by lia. reflexivity.
    + unfold wr. rewrite length_insert. exact L2.
    + intros j. unfold rd at 1, wr.
      destruct (decide (j = m)) as [-> | Hj].
      * rewrite list_lookup_insert_eq by (rewrite Nat2Z.id, L2; exact Hlc).
        cbn [default]. rewrite C1.
        rewrite decide_False by lia.
        rewrite decide_True by (split; [lia | exact E]). reflexivity.
      * rewrite list_lookup_insert_ne by lia.
        fold (rd (wordChanges p') (Z.of_nat j)). rewrite C1.
        apply decide_ext. split; intros [? ?]; split; (lia || assumption).
Qed.

Lemma rolled_forward_loop d local p m s :
  (0 < wbytes d)%nat ->
  Forall is_byte local -> Forall is_byte (tempTwinPage p) ->
  (wbytes d * m <= length local)%nat ->
  (wbytes d * m <= length (tempTwinPage p))%nat ->
  (m <= length (wordChanges p))%nat ->
  rolled_forward d local p m
    (snd (fold_left (recordChanges_word d false local) (seq 0 m) (s, p))).
Proof.
  intros Hw Hbl Hbt. induction m as [|m IH]; intros Hll Hlt Hlc.
  - apply rolled_forward_start.
  - rewrite seq_S, fold_left_app. cbn [fold_left Nat.add].
    rewrite Nat.mul_succ_r in Hll, Hlt.
    specialize (IH ltac:(lia) ltac:(lia) ltac:(lia)).
    destruct (fold_left _ (seq 0 m) (s, p)) as [s' p'].
    apply rolled_forward_step; (assumption || lia).
Qed.

Lemma recordChangesAndUpdate_rolls_twin (d : xdefines) (x : xpersist) (p : pageinfo) :
  0 < sizeof_ulong d -> 0 <= PageSize d -> (sizeof_ulong d | PageSize d) ->
  length (local_page d x (pageStart p)) = pbytes d ->
  length (tempTwinPage p) = pbytes d ->
  length (wordChanges p) = pwords d ->
  bytes_ok (local_page d x (pageStart p)) = true ->
  bytes_ok (tempTwinPage p) = true ->
  let local := local_page d x (pageStart p) in
  let x1 := fst (recordChangesAndUpdate d x p false) in
  let p1 := snd (recordChangesAndUpdate d x p false) in
  tempTwinPage p1 = local /\
  origTwinPage p1 = origTwinPage p /\
  (forall j : nat, (j < pwords d)%nat ->
     rd (wordChanges p1) (Z.of_nat j)
     = if load_word d local j =? load_word d (tempTwinPage p) j
       then rd (wordChanges p) (Z.of_nat j)
       else to_ulong d (rd (wordChanges p) (Z.of_nat j) + 1)) /\
  same_memory x x1 /\
  recordChangesAndUpdate d x1 p1 false
  = (emit x1 (RecordChanges (pageNo p) false), p1).
Proof.
  intros Hw Hp Hdw Hll Hlt Hlc Hbl Hbt local x1 p1.
  apply bytes_ok_Forall in Hbl, Hbt.
  pose proof (page_in_words d Hw Hp Hdw) as HPw.
  assert (Hw' : (0 < wbytes d)%nat) by (unfold wbytes; lia).
  assert (Hsm : same_memory x x1) by apply recordChangesAndUpdate_same_memory.
  pose proof (rolled_forward_loop d local p (pwords d)
                {| ds_x := emit x (RecordChanges (pageNo p) false);
                   ds_recordedCacheNo := 0xFFFFFFFF; ds_interWrites := 0 |}
                Hw' Hbl Hbt ltac:(fold local in Hll; lia) ltac:(lia) ltac:(lia)) as Hr.
  assert (Hp1 : p1 = snd (fold_left (recordChanges_word d false local)
                            (seq 0 (pwords d))
                            ({| ds_x := emit x (RecordChanges (pageNo p) false);
                                ds_recordedCacheNo := 0xFFFFFFFF;
                                ds_interWrites := 0 |}, p))).
  { unfold p1. rewrite recordChangesAndUpdate_loop. reflexivity. }
  rewrite <- Hp1 in Hr.
  destruct Hr as (L1 & T1 & L2 & C1 & O1 & N1 & S1 & Sh1 & A1).
  assert (Htwin : tempTwinPage p1 = local).
  { apply list_eq. intros n. rewrite T1.
    destruct (decide (n < wbytes d * pwords d)%nat) as [H1 | H1]; [reflexivity|].
    fold local in Hll. rewrite !lookup_ge_None_2 by lia. reflexivity. }
  split; [exact Htwin|]. split; [exact O1|]. split.
  { intros j Hj. rewrite C1.
    destruct (load_word d local j =? load_word d (tempTwinPage p) j) eqn:E.
    - apply Z.eqb_eq in E. rewrite decide_False by tauto. reflexivity.
    - apply Z.eqb_neq in E. rewrite decide_True by tauto. reflexivity. }
  split; [exact Hsm|].
  rewrite recordChangesAndUpdate_loop. cbv zeta.
  assert (Hlocal : local_page d x1 (pageStart p1) = local).
  { destruct Hsm as (_ & _ & _ & B & Tr & _). unfold local, local_page, base.
    rewrite B, Tr, S1. reflexivity. }
  rewrite Hlocal, N1.
  rewrite fold_left_fixed; [reflexivity|].
  intros i Hi. unfold recordChanges_word. cbn [negb]. rewrite Htwin.
  rewrite Z.eqb_refl. reflexivity.
Qed.

(** X8. Interim recording of a page whose resources are allocated
    ([createTempPage] false). With working copy, temporary twin and change
    counters of full size, one pass leaves the temporary twin equal to the
    working copy, leaves the original twin alone, and raises by one the
    change counter of exactly the words that differed from the temporary
    twin; the mappings, user counters and word-change array of the region
    are not touched. A second pass with no write in between then changes
    nothing but the trace: it records no word and no cache line. *)
Theorem X8_interim_recording_rolls_the_twin (d : xdefines) (x : xpersist) (p : pageinfo) :
  0 < sizeof_ulong d -> 0 <= PageSize d -> (sizeof_ulong d | PageSize d) ->
  length (local_page d x (pageStart p)) = pbytes d ->
  length (tempTwinPage p) = pbytes d ->
  length (wordChanges p) = pwords d ->
  bytes_ok (local_page d x (pageStart p)) = true ->
  bytes_ok (tempTwinPage p) = true ->
  let local := local_page d x (pageStart p) in
  let x1 := fst (recordChangesAndUpdate d x p false) in
  let p1 := snd (recordChangesAndUpdate d x p false) in
  tempTwinPage p1 = local /\
  origTwinPage p1 = origTwinPage p /\
  (forall j : nat, (j < pwords d)%nat ->
     rd (wordChanges p1) (Z.of_nat j)
     = if load_word d local j =? load_word d (tempTwinPage p) j
       then rd (wordChanges p) (Z.of_nat j)
       else to_ulong d (rd (wordChanges p) (Z.of_nat j) + 1)) /\
  same_memory x x1 /\
  recordChangesAndUpdate d x1 p1 false
  = (emit x1 (RecordChanges (pageNo p) false), p1).
Proof. apply recordChangesAndUpdate_rolls_twin. Qed.

Lemma X8_interim_recording_rolls_the_twin_witness :
  tempTwinPage (snd (recordChangesAndUpdate d32 (fst promoted0) (snd promoted0) false))
  = local_page d32 (fst promoted0) (pageStart (snd promoted0)).
Proof.
  refine (proj1 (X8_interim_recording_rolls_the_twin d32 (fst promoted0) (snd promoted0)
                   _ _ _ _ _ _ _ _)).
  - reflexivity.
  - vm_compute. discriminate.
  - exists 1024. reflexivity.
  - vm_compute. reflexivity.
  - vm_compute. reflexivity.
  - vm_compute. reflexivity.
  - vm_compute. reflexivity.
  - vm_compute. reflexivity.
Defined.

(** ** Commit of a page that is not shared *)


Lemma page_words_le (d : xdefines) :
  0 < sizeof_ulong d -> 0 <= PageSize d -> (wbytes d * pwords d <= pbytes d)%nat.
Proof.
  intros Hw Hp. unfold pbytes, wbytes, pwords.
  pose proof (Z.mul_div_le (PageSize d) (sizeof_ulong d) Hw).
  assert (0 <= PageSize d / sizeof_ulong d) by (apply Z.div_pos; lia).
  rewrite <- Z2Nat.inj_mul by lia. lia.
Qed.




Lemma commitPageDiffs_propagate (d : xdefines) (x : xpersist)
    (local twin : list Z) (pn : Z) :
  0 < sizeof_ulong d -> 0 <= PageSize d ->
  (sizeof_ulong d | PageSize d) -> (16 | PageSize d) ->
  length local = pbytes d -> length twin = pbytes d ->
  bytes_ok local = true -> bytes_ok twin = true ->
  let doff := Z.to_nat (PageSize d * pn) in
  (doff + pbytes d <= length (persistent x))%nat ->
  let x' := commitPageDiffs d x local twin pn in
  (bytes_at (persistent x) doff (pbytes d) = twin ->
   bytes_at (persistent x') doff (pbytes d) = local) /\
  (forall n : nat, ~ (doff <= n < doff + pbytes d)%nat ->
   persistent x' !! n = persistent x !! n) /\
  (local = twin -> persistent x' = persistent x).
Proof.
  intros Hw Hp Hdw H16 Hll Hlt Hbl Hbt doff Hld x'.
  apply bytes_ok_Forall in Hbl, Hbt.
  pose proof (page_in_words d Hw Hp Hdw) as HPw.
  pose proof (page_in_chunks d Hp H16) as HPc.
  assert (Hw' : (0 < wbytes d)%nat) by (unfold wbytes; lia).
  assert (Hword : forall j : nat, (j < pbytes d)%nat ->
             load_word d local (j / wbytes d) = load_word d twin (j / wbytes d) ->
             rdb local j = rdb twin j).
  { intros j Hj Heq.
    set (i := (j / wbytes d)%nat) in *.
    assert (Hji : j = (wbytes d * i + j mod wbytes d)%nat) by (apply Nat.div_mod_eq).
    assert (Hk : (j mod wbytes d < wbytes d)%nat) by (apply Nat.mod_upper_bound; lia).
    assert (Hi : (i < pwords d)%nat) by (apply Nat.Div0.div_lt_upper_bound; lia).
    assert (Hwi : (wbytes d * i + wbytes d <= pbytes d)%nat).
    { rewrite HPw, <- Nat.mul_succ_r. apply Nat.mul_le_mono_l. lia. }
    rewrite Hji. apply (load_word_eq_bytes d); (assumption || lia). }
  set (differs := fun j : nat =>
         if SSE_SUPPORT d
         then negb (rdb local j =? rdb twin j)
         else negb (load_word d local (j / wbytes d)
                    =? load_word d twin (j / wbytes d))).
  assert (Hpt : forall n : nat,
             persistent x' !! n
             = if decide ((doff <= n < doff + pbytes d)%nat /\
                          differs (n - doff)%nat = true)
               then Some (rdb local (n - doff))
               else persistent x !! n).
  { intros n. unfold x', commitPageDiffs, differs. fold doff.
    cbn [persistent set_persistent].
    destruct (SSE_SUPPORT d).
    - unfold commitPageDiffs_sse. rewrite sse_loop_lookup by lia. rewrite <- HPc.
      apply decide_ext. rewrite negb_true_iff, Z.eqb_neq.
      split; [tauto|]. intros [? ?]. split; [assumption|].
      split; [lia | assumption].
    - unfold commitPageDiffs_slow. rewrite slow_loop_lookup by (assumption || lia).
      rewrite <- HPw.
      apply decide_ext. rewrite negb_true_iff, Z.eqb_neq.
      split; [tauto|]. intros [? ?]. split; [assumption|].
      split; [lia | assumption]. }
  assert (Hsame : forall j : nat, (j < pbytes d)%nat ->
             differs j <> true -> rdb local j = rdb twin j).
  { intros j Hj Hnd. unfold differs in Hnd. destruct (SSE_SUPPORT d).
    - apply Z.eqb_eq. destruct (rdb local j =? rdb twin j); [reflexivity|].
      exfalso. apply Hnd. reflexivity.
    - apply Hword; [exact Hj|]. apply Z.eqb_eq.
      destruct (load_word d local (j / wbytes d) =? load_word d twin (j / wbytes d));
        [reflexivity|].
      exfalso. apply Hnd. reflexivity. }
  split; [|split].
  - intros Hdest. apply list_eq. intros k.
    destruct (decide (k < pbytes d)%nat) as [Hk | Hk].
    2:{ unfold bytes_at. rewrite lookup_take_ge by lia.
        rewrite lookup_ge_None_2 by lia. reflexivity. }
    rewrite bytes_at_lookup by exact Hk. rewrite Hpt.
    replace (doff + k - doff)%nat with k by lia.
    assert (Hd : persistent x !! (doff + k)%nat = twin !! k).
    { rewrite <- Hdest. rewrite bytes_at_lookup by exact Hk. reflexivity. }
    case_decide as Hc.
    + symmetry. apply lookup_rdb. lia.
    + rewrite Hd, !lookup_rdb by lia. f_equal. symmetry.
      apply Hsame; [exact Hk|]. intros Hdiff. apply Hc. split; [lia | exact Hdiff].
  - intros n Hn. rewrite Hpt. rewrite decide_False by tauto. reflexivity.
  - intros ->. apply list_eq. intros n. rewrite Hpt.
    rewrite decide_False; [reflexivity|].
    intros [_ Hc]. unfold differs in Hc.
    rewrite !Z.eqb_refl in Hc. destruct (SSE_SUPPORT d); discriminate Hc.
Qed.

(** X10. Commit of a page no other process has written. If the destination
    page still holds the twin, then after [commitPageDiffs], with either
    body, it holds the working copy, byte for byte, and the persistent
    mapping is unchanged outside the page; and if the working copy equals
    the twin (nothing was written) the persistent mapping is left exactly
    as it was. *)
Theorem X10_commitPageDiffs_propagates (d : xdefines) (x : xpersist)
    (local twin : list Z) (pn : Z) :
  0 < sizeof_ulong d -> 0 <= PageSize d ->
  (sizeof_ulong d | PageSize d) -> (16 | PageSize d) ->
  length local = pbytes d -> length twin = pbytes d ->
  bytes_ok local = true -> bytes_ok twin = true ->
  let doff := Z.to_nat (PageSize d * pn) in
  (doff + pbytes d <= length (persistent x))%nat ->
  let x' := commitPageDiffs d x local twin pn in
  (bytes_at (persistent x) doff (pbytes d) = twin ->
   bytes_at (persistent x') doff (pbytes d) = local) /\
  (forall n : nat, ~ (doff <= n < doff + pbytes d)%nat ->
   persistent x' !! n = persistent x !! n) /\
  (local = twin -> persistent x' = persistent x).
Proof. apply commitPageDiffs_propagate. Qed.

Lemma X10_commitPageDiffs_propagates_witness :
  bytes_at (persistent (commitPageDiffs d32 heap0 diff_local diff_twin 0))
           (Z.to_nat (PageSize d32 * 0)) (pbytes d32) = diff_local.
Proof.
  refine (proj1 (X10_commitPageDiffs_propagates d32 heap0 diff_local diff_twin 0
                   _ _ _ _ _ _ _ _ _) _).
  - reflexivity.
  - vm_compute. discriminate.
  - exists 1024. reflexivity.
  - exists 256. reflexivity.
  - vm_compute. reflexivity.
  - vm_compute. reflexivity.
  - vm_compute. reflexivity.
  - vm_compute. reflexivity.
  - apply Nat.leb_le. vm_compute. reflexivity.
  - refine (bool_decide_eq_true_1 _ _). vm_compute. reflexivity.
Defined.

(** ** Commit of a shared page, continued *)

Lemma checkCommitWord_prefix (local twin : list Z) (lo : nat) (share : list Z) (so k n : nat) :
  let step := fun (sh : list Z) (j : nat) =>
                if negb (rdb local (lo + j) =? rdb twin (lo + j))
                then <[(so + j)%nat := rdb local (lo + j)]> sh
                else sh in
  length (fold_left step (seq 0 k) share) = length share /\
  fold_left step (seq 0 k) share !! n
  = if decide ((so <= n < so + k)%nat /\ (n < length share)%nat /\
               rdb local (lo + (n - so)) <> rdb twin (lo + (n - so)))
    then Some (rdb local (lo + (n - so)))
    else share !! n.
Proof.
  intros step. induction k as [|k [IHl IH]].
  - simpl. split; [reflexivity|]. rewrite decide_False by lia. reflexivity.
  - rewrite seq_S, fold_left_app. cbn [fold_left Nat.add].
    set (sh := fold_left step (seq 0 k) share) in *.
    unfold step.
    destruct (rdb local (lo + k) =? rdb twin (lo + k)) eqn:E; cbn [negb].
    + apply Z.eqb_eq in E. split; [exact IHl|]. rewrite IH.
      destruct (decide (n = so + k)%nat) as [-> | Hn].
      * replace (so + k - so)%nat with k by lia.
        rewrite !decide_False by tauto. reflexivity.
      * apply decide_ext. split; intros (? & ? & ?); repeat split; (lia || assumption).
    + apply Z.eqb_neq in E. split; [rewrite length_insert; exact IHl|].
      destruct (decide (n = so + k)%nat) as [-> | Hn].
      * replace (so + k - so)%nat with k by lia.
        destruct (decide (so + k < length share)%nat) as [Hlt | Hge].
        -- rewrite list_lookup_insert_eq by lia.
           rewrite decide_True by (repeat split; (lia || assumption)). reflexivity.
        -- rewrite decide_False by lia.
           rewrite !lookup_ge_None_2; [reflexivity | lia | rewrite length_insert; lia].
      * rewrite list_lookup_insert_ne by lia. rewrite IH.
        apply decide_ext. split; intros (? & ? & ?); repeat split; (lia || assumption).
Qed.

Lemma checkCommitWord_lookup d local twin lo share so (n : nat) :
  checkCommitWord d local twin lo share so !! n
  = if decide ((so <= n < so + wbytes d)%nat /\ (n < length share)%nat /\
               rdb local (lo + (n - so)) <> rdb twin (lo + (n - so)))
    then Some (rdb local (lo + (n - so)))
    else share !! n.
Proof. apply (checkCommitWord_prefix local twin lo share so (wbytes d) n). Qed.

Lemma length_checkCommitWord d local twin lo share so :
  length (checkCommitWord d local twin lo share so) = length share.
Proof. apply (checkCommitWord_prefix local twin lo share so (wbytes d) 0). Qed.

Lemma touchCacheLine_persistent_eq d q s j :
  persistent (ds_x (touchCacheLine d q s j)) = persistent (ds_x s).
Proof.
  pose proof (touchCacheLine_same_memory d q s j) as (_ & _ & _ & _ & _ & H & _).
  exact H.
Qed.

(** The persistent mapping after the turn of [checkcommitpage] for a word
    that differs from the original twin. *)
Lemma checkcommit_word_persistent d p local s m :
  persistent (ds_x (checkcommit_word d p local s m))
  = if load_word d local m =? load_word d (origTwinPage p) m
    then persistent (ds_x s)
    else checkCommitWord d local (origTwinPage p) (wbytes d * m) (persistent (ds_x s))
           (page_offset d p + wbytes d * m).
Proof.
  unfold checkcommit_word, page_offset.
  destruct (load_word d local m =? load_word d (origTwinPage p) m).
  - destruct (negb _); reflexivity.
  - cbn [ds_x persistent set_persistent].
    destruct (negb _); cbn [ds_x]; unfold recordGlobal;
      cbn [persistent set_wordChanges]; rewrite ?touchCacheLine_persistent_eq;
      reflexivity.
Qed.

Lemma checkcommit_loop_persistent d p local s (m n : nat) :
  Forall is_byte local -> Forall is_byte (origTwinPage p) ->
  (wbytes d * m <= length local)%nat ->
  (wbytes d * m <= length (origTwinPage p))%nat ->
  let s' := checkcommit_loop d p local s (seq 0 m) in
  length (persistent (ds_x s')) = length (persistent (ds_x s)) /\
  persistent (ds_x s') !! n
  = if decide ((page_offset d p <= n < page_offset d p + wbytes d * m)%nat /\
               (n < length (persistent (ds_x s)))%nat /\
               rdb local (n - page_offset d p)
               <> rdb (origTwinPage p) (n - page_offset d p))
    then Some (rdb local (n - page_offset d p))
    else persistent (ds_x s) !! n.
Proof.
  intros Hbl Hbt. induction m as [|m IH]; intros Hll Hlt s'.
  - unfold s'. simpl. split; [reflexivity|]. rewrite decide_False by lia. reflexivity.
  - unfold s', checkcommit_loop. rewrite seq_S, fold_left_app.
    cbn [fold_left Nat.add]. fold (checkcommit_loop d p local s (seq 0 m)).
    rewrite Nat.mul_succ_r in Hll, Hlt |- *.
    destruct (IH ltac:(lia) ltac:(lia)) as [IHl IHn].
    set (sm := checkcommit_loop d p local s (seq 0 m)) in *.
    rewrite checkcommit_word_persistent.
    destruct (load_word d local m =? load_word d (origTwinPage p) m) eqn:E.
    + apply Z.eqb_eq in E. split; [exact IHl|]. rewrite IHn.
      destruct (decide (page_offset d p + wbytes d * m <= n
                        < page_offset d p + wbytes d * m + wbytes d)%nat) as [Hin | Hout].
      * assert (Hsame : rdb local (n - page_offset d p)
                        = rdb (origTwinPage p) (n - page_offset d p)).
        { replace (n - page_offset d p)%nat
            with (wbytes d * m + (n - page_offset d p - wbytes d * m))%nat by lia.
          apply (load_word_eq_bytes d); (assumption || lia). }
        rewrite !decide_False by (intros (? & ? & ?); (lia || contradiction)).
        reflexivity.
      * apply decide_ext. split; intros (? & ? & ?); repeat split; (lia || assumption).
    + rewrite length_checkCommitWord. split; [exact IHl|].
      rewrite checkCommitWord_lookup, IHl, IHn.
      destruct (decide (page_offset d p + wbytes d * m <= n
                        < page_offset d p + wbytes d * m + wbytes d)%nat) as [Hin | Hout].
      * replace (wbytes d * m + (n - (page_offset d p + wbytes d * m)))%nat
          with (n - page_offset d p)%nat by lia.
        repeat case_decide; try reflexivity; exfalso; lia.
      * repeat case_decide; try reflexivity; exfalso; lia.
Qed.

Lemma checkcommitpage_merge (d : xdefines) (x : xpersist) (p : pageinfo) :
  0 < sizeof_ulong d -> 0 <= PageSize d ->
  (sizeof_ulong d | PageSize d) -> (16 | PageSize d) ->
  length (local_page d x (pageStart p)) = pbytes d ->
  length (origTwinPage p) = pbytes d ->
  bytes_ok (local_page d x (pageStart p)) = true ->
  bytes_ok (origTwinPage p) = true ->
  let local := local_page d x (pageStart p) in
  (forall n : nat,
      persistent (checkcommitpage d x p) !! n
      = if decide (in_page d p n /\ (n < length (persistent x))%nat /\
                   rdb local (n - page_offset d p)
                   <> rdb (origTwinPage p) (n - page_offset d p))
        then Some (rdb local (n - page_offset d p))
        else persistent x !! n) /\
  persistent (checkcommitpage d x p)
  = commitPageDiffs_sse d local (origTwinPage p) (persistent x) (page_offset d p).
Proof.
  intros Hw Hp Hdw H16 Hll Hlt Hbl Hbt local.
  apply bytes_ok_Forall in Hbl, Hbt.
  pose proof (page_in_words d Hw Hp Hdw) as HPw.
  pose proof (page_in_chunks d Hp H16) as HPc.
  assert (Hpt : forall n : nat,
      persistent (checkcommitpage d x p) !! n
      = if decide (in_page d p n /\ (n < length (persistent x))%nat /\
                   rdb local (n - page_offset d p)
                   <> rdb (origTwinPage p) (n - page_offset d p))
        then Some (rdb local (n - page_offset d p))
        else persistent x !! n).
  { intros n. unfold checkcommitpage. fold local.
    destruct (checkcommit_loop_persistent d p local
                {| ds_x := x; ds_recordedCacheNo := 0xFFFFFFFF; ds_interWrites := 0 |}
                (pwords d) n Hbl Hbt ltac:(fold local in Hll; lia) ltac:(lia))
      as [_ Hn].
    cbn [ds_x] in Hn. rewrite Hn. unfold in_page. rewrite <- HPw. reflexivity. }
  split; [exact Hpt|].
  apply list_eq. intros n. rewrite Hpt. unfold commitPageDiffs_sse.
  rewrite sse_loop_lookup by (fold local in Hll; lia).
  rewrite <- HPc. reflexivity.
Qed.

(** X12. The commit of a shared page merges byte by byte, whatever the
    recorded history of its words: with working copy and original twin of
    page size, [checkcommitpage] leaves in every byte of the page in the
    persistent mapping the working copy's byte where it differs from the
    original twin's, and what was there where it does not, and changes no
    byte outside the page. The persistent mapping it leaves is the one
    the vectorized [commitPageDiffs] leaves for the same page. *)
Theorem X12_checkcommitpage_merges_bytes (d : xdefines) (x : xpersist) (p : pageinfo) :
  0 < sizeof_ulong d -> 0 <= PageSize d ->
  (sizeof_ulong d | PageSize d) -> (16 | PageSize d) ->
  length (local_page d x (pageStart p)) = pbytes d ->
  length (origTwinPage p) = pbytes d ->
  bytes_ok (local_page d x (pageStart p)) = true ->
  bytes_ok (origTwinPage p) = true ->
  let local := local_page d x (pageStart p) in
  (forall n : nat,
      persistent (checkcommitpage d x p) !! n
      = if decide (in_page d p n /\ (n < length (persistent x))%nat /\
                   rdb local (n - page_offset d p)
                   <> rdb (origTwinPage p) (n - page_offset d p))
        then Some (rdb local (n - page_offset d p))
        else persistent x !! n) /\
  persistent (checkcommitpage d x p)
  = commitPageDiffs_sse d local (origTwinPage p) (persistent x) (page_offset d p).
Proof. apply checkcommitpage_merge. Qed.

Lemma X12_checkcommitpage_merges_bytes_witness :
  persistent (checkcommitpage d32 wrote0 (first_entry wrote0))
  = commitPageDiffs_sse d32 (local_page d32 wrote0 (pageStart (first_entry wrote0)))
      (origTwinPage (first_entry wrote0)) (persistent wrote0)
      (page_offset d32 (first_entry wrote0)).
Proof.
  refine (proj2 (X12_checkcommitpage_merges_bytes d32 wrote0 (first_entry wrote0)
                   _ _ _ _ _ _ _ _)).
  - reflexivity.
  - vm_compute. discriminate.
  - exists 1024. reflexivity.
  - exists 256. reflexivity.
  - vm_compute. reflexivity.
  - vm_compute. reflexivity.
  - vm_compute. reflexivity.
  - vm_compute. reflexivity.
Defined.




(** ** Commit of the whole working set *)




Lemma checkcommitpage_outside (d : xdefines) (x : xpersist) (p : pageinfo) (n : nat) :
  0 < sizeof_ulong d -> 0 <= PageSize d ->
  ~ in_page d p n ->
  persistent (checkcommitpage d x p) !! n = persistent x !! n.
Proof.
  intros Hw Hp Hn. unfold in_page in Hn. unfold checkcommitpage, checkcommit_loop.
  apply (fold_left_preserves_in
           (fun s => persistent (ds_x s) !! n = persistent x !! n)); [|reflexivity].
  intros s i Hi Hs. apply in_seq in Hi.
  rewrite checkcommit_word_persistent.
  destruct (_ =? _); [exact Hs|].
  rewrite checkCommitWord_outside; [exact Hs|].
  pose proof (page_words_le d Hw Hp).
  assert (wbytes d * S i <= wbytes d * pwords d)%nat
    by (apply Nat.mul_le_mono_l; lia).
  lia.
Qed.

Lemma same_working_set_refl x : same_working_set x x.
Proof. unfold same_working_set. repeat apply conj; reflexivity. Qed.

Lemma same_working_set_trans x y z :
  same_working_set x y -> same_working_set y z -> same_working_set x z.
Proof.
  unfold same_working_set.
  intros (A1 & A2 & A3 & A4 & A5) (B1 & B2 & B3 & B4 & B5).
  repeat apply conj; congruence.
Qed.

Lemma checkcommit_word_working_set d p local s i :
  same_working_set (ds_x s) (ds_x (checkcommit_word d p local s i)).
Proof.
  assert (Ht : forall q s' j, same_working_set (ds_x s') (ds_x (touchCacheLine d q s' j))).
  { intros q s' j. unfold touchCacheLine. destruct (negb _); [|apply same_working_set_refl].
    unfold recordCacheInvalidates, atomic_exchange.
    destruct (negb _ && negb _); unfold same_working_set; repeat apply conj; reflexivity. }
  unfold checkcommit_word.
  destruct (_ =? _).
  - destruct (negb _); [|apply same_working_set_refl].
    unfold same_working_set. repeat apply conj; reflexivity.
  - destruct (negb _); cbn [ds_x].
    + eapply same_working_set_trans; [apply (Ht p s i)|].
      unfold same_working_set. repeat apply conj; reflexivity.
    + unfold same_working_set. repeat apply conj; reflexivity.
Qed.

Lemma checkcommitpage_working_set d x p : same_working_set x (checkcommitpage d x p).
Proof.
  unfold checkcommitpage, checkcommit_loop.
  apply (fold_left_preserves (fun s => same_working_set x (ds_x s)));
    [|apply same_working_set_refl].
  intros s i Hs. eapply same_working_set_trans; [exact Hs|].
  apply checkcommit_word_working_set.
Qed.




(** ** Direct access to the persistent mapping *)






(** ** Cleaning up after a heap object *)

Lemma cleanup_lines_keeps_cared (min_care : Z) (lines : list Z) (ci : list Z) (i : Z) :
  min_care <= rd ci i ->
  rd (snd (cleanup_lines min_care ci lines)) i = rd ci i.
Proof.
  revert ci. induction lines as [|j lines IH]; intros ci Hi; [reflexivity|].
  cbn [cleanup_lines].
  destruct (min_care <=? rd ci j) eqn:E; [reflexivity|].
  apply Z.leb_gt in E.
  assert (Hne : Z.to_nat j <> Z.to_nat i).
  { intros Heq. unfold rd in *. rewrite Heq in E. lia. }
  assert (Hrd : rd (wr ci j 0) i = rd ci i).
  { unfold rd, wr. rewrite list_lookup_insert_ne by exact Hne. reflexivity. }
  rewrite IH by (rewrite Hrd; exact Hi). exact Hrd.
Qed.

Lemma cleanup_lines_length (min_care : Z) (lines : list Z) (ci : list Z) :
  length (snd (cleanup_lines min_care ci lines)) = length ci.
Proof.
  revert ci. induction lines as [|j lines IH]; intros ci; [reflexivity|].
  cbn [cleanup_lines]. destruct (min_care <=? rd ci j); [reflexivity|].
  rewrite IH. unfold wr. apply length_insert.
Qed.

Lemma cleanup_lines_zero_stays (min_care : Z) (lines : list Z) (ci : list Z) (i : Z) :
  rd ci i = 0 -> rd (snd (cleanup_lines min_care ci lines)) i = 0.
Proof.
  revert ci. induction lines as [|j lines IH]; intros ci Hi; [exact Hi|].
  cbn [cleanup_lines]. destruct (min_care <=? rd ci j); [exact Hi|].
  apply IH. unfold rd, wr.
  destruct (decide (Z.to_nat j = Z.to_nat i)) as [Heq | Hne].
  - rewrite Heq. destruct (decide (Z.to_nat i < length ci)%nat).
    + rewrite list_lookup_insert_eq by assumption. reflexivity.
    + rewrite lookup_ge_None_2 by (rewrite length_insert; lia). reflexivity.
  - rewrite list_lookup_insert_ne by exact Hne. exact Hi.
Qed.

Lemma cleanup_lines_true (min_care : Z) (lines : list Z) (ci : list Z) :
  fst (cleanup_lines min_care ci lines) = true ->
  forall j, In j lines ->
    rd ci j < min_care /\ rd (snd (cleanup_lines min_care ci lines)) j = 0.
Proof.
  revert ci. induction lines as [|j0 lines IH]; intros ci Hok j Hj; [destruct Hj|].
  cbn [cleanup_lines] in *.
  destruct (min_care <=? rd ci j0) eqn:E; [discriminate Hok|].
  apply Z.leb_gt in E.
  assert (Hz : rd (wr ci j0 0) j0 = 0).
  { unfold rd, wr. destruct (decide (Z.to_nat j0 < length ci)%nat).
    - rewrite list_lookup_insert_eq by assumption. reflexivity.
    - rewrite lookup_ge_None_2 by (rewrite length_insert; lia). reflexivity. }
  destruct (decide (Z.to_nat j = Z.to_nat j0)) as [Heq | Hne].
  - assert (Hrd : forall a, rd a j = rd a j0) by (intros a; unfold rd; rewrite Heq; reflexivity).
    rewrite !Hrd. split; [exact E|].
    apply cleanup_lines_zero_stays. exact Hz.
  - destruct Hj as [-> | Hj]; [contradiction|].
    destruct (IH (wr ci j0 0) Hok j Hj) as [H1 H2].
    split; [|exact H2].
    unfold rd, wr in H1. rewrite list_lookup_insert_ne in H1 by lia. exact H1.
Qed.

Lemma cleanup_lines_false (min_care : Z) (lines : list Z) (ci : list Z) :
  0 < min_care ->
  fst (cleanup_lines min_care ci lines) = false ->
  exists j, In j lines /\ min_care <= rd ci j.
Proof.
  intros Hmin.
  revert ci. induction lines as [|j0 lines IH]; intros ci Hok; [discriminate Hok|].
  cbn [cleanup_lines] in Hok.
  destruct (min_care <=? rd ci j0) eqn:E.
  - exists j0. split; [left; reflexivity | apply Z.leb_le; exact E].
  - apply Z.leb_gt in E.
    destruct (IH _ Hok) as (j & Hj & Hc). exists j. split; [right; exact Hj|].
    destruct (decide (Z.to_nat j0 = Z.to_nat j)) as [Heq | Hne].
    + exfalso.
      assert (rd (wr ci j0 0) j = 0).
      { unfold rd, wr. rewrite <- Heq.
        destruct (decide (Z.to_nat j0 < length ci)%nat).
        - rewrite list_lookup_insert_eq by assumption. reflexivity.
        - rewrite lookup_ge_None_2 by (rewrite length_insert; lia). reflexivity. }
      assert (rd ci j = rd ci j0) by (unfold rd; rewrite Heq; reflexivity).
      lia.
    + unfold rd, wr in Hc. rewrite list_lookup_insert_ne in Hc by exact Hne. exact Hc.
Qed.

Lemma memset_records_whole (a : list wordchangeinfo) (first sz k : Z) :
  0 <= first -> 0 <= k < sz / 4 ->
  rdw (memset_records a first sz) (first + k) = {| tid := 0; version := 0 |}.
Proof.
  intros Hf Hk. unfold memset_records.
  set (zero := {| tid := 0; version := 0 |}).
  assert (Hfold : forall m : nat, (Z.to_nat k < m)%nat ->
             rdw (fold_left (fun acc j => wr acc (first + Z.of_nat j) zero) (seq 0 m) a)
                 (first + k) = zero).
  { induction m as [|m IH]; intros Hm; [lia|].
    rewrite seq_S, fold_left_app. cbn [fold_left Nat.add].
    unfold rdw, wr.
    destruct (decide (Z.to_nat k = m)) as [Heq | Hne].
    - replace (Z.to_nat (first + Z.of_nat m)) with (Z.to_nat (first + k)) by lia.
      match goal with |- context [<[?i:=_]> ?l] =>
        destruct (decide (i < length l)%nat) as [Hin | Hout] end.
      + rewrite list_lookup_insert_eq by exact Hin. reflexivity.
      + rewrite lookup_ge_None_2 by (rewrite length_insert; lia). reflexivity.
    - rewrite list_lookup_insert_ne by lia. apply IH. lia. }
  assert (Hw : rdw (fold_left (fun acc j => wr acc (first + Z.of_nat j) zero)
                      (seq 0 (Z.to_nat (sz / 4))) a) (first + k) = zero)
    by (apply Hfold; lia).
  destruct (sz mod 4 =? 0); [exact Hw|].
  unfold rdw at 1, wr. rewrite list_lookup_insert_ne by lia. exact Hw.
Qed.

(** X16. [cleanupHeapObject] on a heap region. It never clears the
    invalidation counter of a cache line that has reached
    [MIN_INVALIDATES_CARE], whatever it returns, and it touches neither
    mapping, nor the last-writer array, nor the working set. For an
    address outside the region it returns false and changes nothing. When
    it returns true, every cache line of the object was below the
    threshold and now reads 0, and every whole word-change record of the
    object reads (no owner, version 0). When it returns false for an
    address in the region, some cache line of the object had reached the
    threshold, and the word-change array is as it was. *)
Theorem X16_cleanupHeapObject_spares_cared_lines (d : xdefines) (min_care : Z)
    (x : xpersist) (ptr sz : Z) :
  _isHeap x = true -> 0 < min_care -> 0 < sizeof_ulong d ->
  exists r x',
    cleanupHeapObject d min_care x ptr sz = Some (r, x') /\
    (forall i, min_care <= rd (_cacheInvalidates x) i ->
       rd (_cacheInvalidates x') i = rd (_cacheInvalidates x) i) /\
    persistent x' = persistent x /\
    _cacheLastthread x' = _cacheLastthread x /\
    same_working_set x x' /\
    (inRange d x ptr = false -> r = false /\ x' = x) /\
    let offset := to_int (to_int ptr - to_int (base x)) in
    let index := to_int (Z.quot offset (CACHE_LINE_SIZE d)) in
    let n0 := to_int (sz / CACHE_LINE_SIZE d) in
    let cachelines := if n0 =? 0 then 1 else n0 in
    (r = true ->
       inRange d x ptr = true /\
       (forall k, 0 <= k < cachelines ->
          rd (_cacheInvalidates x) (index + k) < min_care /\
          rd (_cacheInvalidates x') (index + k) = 0) /\
       (forall k, 0 <= k < sz / 4 ->
          rdw (_wordChanges x') (to_ulong d offset / sizeof_ulong d + k)
          = {| tid := 0; version := 0 |})) /\
    (r = false -> inRange d x ptr = true ->
       _wordChanges x' = _wordChanges x /\
       exists k, 0 <= k < cachelines /\
                 min_care <= rd (_cacheInvalidates x) (index + k)).
Proof.
  intros Hheap Hmin Hw. unfold cleanupHeapObject. rewrite Hheap. cbn [negb].
  destruct (inRange d x ptr) eqn:Hin; cbn [negb].
  2:{ exists false, x. split; [reflexivity|]. split; [auto|].
      split; [reflexivity|]. split; [reflexivity|].
      split; [apply same_working_set_refl|]. split; [auto|].
      cbv zeta. split; intros; discriminate. }
  set (offset := to_int (to_int ptr - to_int (base x))).
  set (index := to_int (Z.quot offset (CACHE_LINE_SIZE d))).
  set (n0 := to_int (sz / CACHE_LINE_SIZE d)).
  set (cachelines := if n0 =? 0 then 1 else n0).
  set (lines := (fun k => index + Z.of_nat k) <$> seq 0 (Z.to_nat cachelines)).
  pose proof (cleanup_lines_keeps_cared min_care lines (_cacheInvalidates x)) as Hkeep.
  pose proof (cleanup_lines_true min_care lines (_cacheInvalidates x)) as Htrue.
  pose proof (cleanup_lines_false min_care lines (_cacheInvalidates x) Hmin) as Hfalse.
  assert (Hlines : forall j, In j lines <-> exists k, 0 <= k < cachelines /\ j = index + k).
  { intros j. unfold lines. rewrite <- list_elem_of_In, list_elem_of_fmap. split.
    - intros (k & -> & Hk). apply list_elem_of_In, in_seq in Hk.
      exists (Z.of_nat k). split; [lia | reflexivity].
    - intros (k & Hk & ->). exists (Z.to_nat k). split; [f_equal; lia|].
      apply list_elem_of_In, in_seq. lia. }
  destruct (cleanup_lines min_care (_cacheInvalidates x) lines) as [ok ci] eqn:Hcl.
  cbn [fst snd] in Hkeep, Htrue, Hfalse.
  destruct ok.
  - eexists true, _. split; [reflexivity|].
    cbn [_cacheInvalidates persistent _cacheLastthread set_wordChanges
         set_cacheInvalidates _wordChanges].
    split; [exact Hkeep|]. split; [reflexivity|]. split; [reflexivity|].
    split; [unfold same_working_set; repeat apply conj; reflexivity|].
    split; [intros; discriminate|]. split; [|intros; discriminate].
    intros _. split; [reflexivity|]. split.
    + intros k Hk. apply (Htrue eq_refl). apply Hlines. exists k. auto.
    + intros k Hk. apply memset_records_whole; [|exact Hk].
      apply Z.div_pos; [|exact Hw]. unfold to_ulong.
      apply Z.mod_pos_bound. apply Z.pow_pos_nonneg; lia.
  - eexists false, _. split; [reflexivity|].
    cbn [_cacheInvalidates persistent _cacheLastthread set_cacheInvalidates _wordChanges].
    split; [exact Hkeep|]. split; [reflexivity|]. split; [reflexivity|].
    split; [unfold same_working_set; repeat apply conj; reflexivity|].
    split; [intros; discriminate|]. split; [intros; discriminate|].
    intros _ _. split; [reflexivity|].
    destruct (Hfalse eq_refl) as (j & Hj & Hc).
    apply Hlines in Hj. destruct Hj as (k & Hk & ->). exists k. auto.
Qed.

Lemma X16_cleanupHeapObject_spares_cared_lines_witness :
  exists r x', cleanupHeapObject d32 2 heap0 heap_base 64 = Some (r, x').
Proof.
  destruct (X16_cleanupHeapObject_spares_cared_lines d32 2 heap0 heap_base 64)
    as (r & x' & H & _).
  - vm_compute. reflexivity.
  - reflexivity.
  - reflexivity.
  - exists r, x'. exact H.
Defined.

(** ** Transaction reset, continued *)








(** ** The write interceptor and the page list *)



(** ** The periodic check, continued *)

Lemma recordChanges_word_identity d c local sp i :
  let p := snd sp in
  let p' := snd (recordChanges_word d c local sp i) in
  pageNo p' = pageNo p /\ pageStart p' = pageStart p /\
  shared p' = shared p /\ alloced p' = alloced p.
Proof.
  destruct sp as [s p]. unfold recordChanges_word. cbn [snd].
  destruct (negb _); [|auto].
  destruct (negb c); cbn [snd]; repeat apply conj; reflexivity.
Qed.

Lemma recordChangesAndUpdate_identity d x p c :
  let p' := snd (recordChangesAndUpdate d x p c) in
  pageNo p' = pageNo p /\ pageStart p' = pageStart p /\
  shared p' = shared p /\ alloced p' = alloced p.
Proof.
  rewrite recordChangesAndUpdate_loop. cbv zeta. cbn [snd].
  match goal with
  | |- context [fold_left ?f ?l ?a] =>
      apply (fold_left_preserves
               (fun sp => pageNo (snd sp) = pageNo p /\ pageStart (snd sp) = pageStart p /\
                          shared (snd sp) = shared p /\ alloced (snd sp) = alloced p)
               f l a)
  end.
  - intros sp i (A & B & C & D).
    destruct (recordChanges_word_identity d c (local_page d x (pageStart p)) sp i)
      as (A' & B' & C' & D').
    repeat apply conj; congruence.
  - cbn [snd]. destruct c; repeat apply conj; reflexivity.
Qed.

Lemma allocResourcesForSharedPage_same_memory d x p :
  same_memory x (fst (allocResourcesForSharedPage d x p)).
Proof.
  unfold allocResourcesForSharedPage, pagestore_alloc.
  destruct (pagestore x) as [|b r] eqn:E; cbn [fst].
  - rewrite E. apply same_memory_refl.
  - cbn [pagestore set_pagestore]. destruct r; unfold same_memory;
      repeat apply conj; reflexivity.
Qed.

Lemma allocResourcesForSharedPage_identity d x p :
  let p' := snd (allocResourcesForSharedPage d x p) in
  pageNo p' = pageNo p /\ pageStart p' = pageStart p /\
  shared p' = shared p /\ alloced p' = true.
Proof.
  unfold allocResourcesForSharedPage, pagestore_alloc.
  destruct (pagestore x) as [|b r] eqn:E.
  - rewrite E. repeat apply conj; reflexivity.
  - cbn [pagestore set_pagestore]. destruct r; repeat apply conj; reflexivity.
Qed.

(** What one turn of [periodicCheck] does to the entry and to the region. *)
Lemma periodicCheck_page_effect d x c p :
  let r := periodicCheck_page d (x, c) p in
  let p' := snd r in
  same_memory x (fst (fst r)) /\
  pageNo p' = pageNo p /\ pageStart p' = pageStart p /\
  shared p' = shared p || negb (to_int (atomic_read (_pageUsers x) (pageNo p)) =? 1) /\
  alloced p' = alloced p || shared p'.
Proof.
  unfold periodicCheck_page.
  assert (Hgo : forall q, shared q = true -> pageNo q = pageNo p ->
            pageStart q = pageStart p -> alloced q = alloced p ->
            let r := (let '(x1, p2, c1) :=
                        if negb (alloced q)
                        then let '(x', p') := allocResourcesForSharedPage d x q in
                             (x', p', true)
                        else (x, q, c) in
                      let '(x2, p3) := recordChangesAndUpdate d x1 p2 c1 in
                      (x2, c1, p3)) in
            same_memory x (fst (fst r)) /\
            pageNo (snd r) = pageNo p /\ pageStart (snd r) = pageStart p /\
            shared (snd r) = true /\ alloced (snd r) = true).
  { intros q Hs Hn Hst Ha.
    destruct (alloced q) eqn:Eal; cbn [negb].
    - pose proof (recordChangesAndUpdate_same_memory d x q c) as Hm.
      pose proof (recordChangesAndUpdate_identity d x q c) as (A & B & C & D).
      destruct (recordChangesAndUpdate d x q c) as [x2 p3]. cbn [fst snd] in *.
      split; [exact Hm|]. repeat apply conj; congruence.
    - pose proof (allocResourcesForSharedPage_same_memory d x q) as Hm1.
      pose proof (allocResourcesForSharedPage_identity d x q) as (A1 & B1 & C1 & D1).
      destruct (allocResourcesForSharedPage d x q) as [x' p']. cbn [fst snd] in *.
      pose proof (recordChangesAndUpdate_same_memory d x' p' true) as Hm.
      pose proof (recordChangesAndUpdate_identity d x' p' true) as (A & B & C & D).
      destruct (recordChangesAndUpdate d x' p' true) as [x2 p3]. cbn [fst snd] in *.
      split; [eapply same_memory_trans; eassumption|].
      repeat apply conj; congruence. }
  destruct (shared p) eqn:Es; cbn [negb orb].
  - rewrite Es. destruct (Hgo p Es eq_refl eq_refl eq_refl) as (A & B & C & D & E).
    cbv zeta in A, B, C, D, E. cbv zeta.
    split; [exact A|]. repeat apply conj; try assumption.
    rewrite D, E. symmetry. apply orb_true_r.
  - destruct (to_int (atomic_read (_pageUsers x) (pageNo p)) =? 1) eqn:Eu; cbn [negb].
    + cbn [fst snd]. rewrite Es. split; [apply same_memory_refl|].
      repeat apply conj; try reflexivity. rewrite orb_false_r. reflexivity.
    + cbn [shared set_shared].
      destruct (Hgo (set_shared p true) eq_refl eq_refl eq_refl eq_refl)
        as (A & B & C & D & E).
      cbv zeta in A, B, C, D, E. cbv zeta.
      split; [exact A|]. repeat apply conj; try assumption.
      rewrite D, E. symmetry. apply orb_true_r.
Qed.

Lemma periodicCheck_loop_effect d todo :
  forall x0 x c,
    same_memory x0 x ->
    let r := periodicCheck_loop d (x, c) todo in
    same_memory x0 (fst (fst r)) /\
    fst <$> snd r = fst <$> todo /\
    forall n k p, todo !! n = Some (k, p) ->
      exists p', snd r !! n = Some (k, p') /\
        pageNo p' = pageNo p /\ pageStart p' = pageStart p /\
        shared p'
        = shared p || negb (to_int (atomic_read (_pageUsers x0) (pageNo p)) =? 1) /\
        alloced p' = alloced p || shared p'.
Proof.
  induction todo as [|[k0 p0] todo IH]; intros x0 x c Hm.
  - cbn. split; [exact Hm|]. split; [reflexivity|]. intros n k p Hn.
    destruct n; discriminate Hn.
  - rewrite periodicCheck_loop_cons.
    pose proof (periodicCheck_page_effect d x c p0) as (M1 & A1 & B1 & C1 & D1).
    destruct (periodicCheck_page d (x, c) p0) as [[x1 c1] p1]. cbn [fst snd] in *.
    assert (Hm1 : same_memory x0 x1) by (eapply same_memory_trans; eassumption).
    specialize (IH x0 x1 c1 Hm1). cbv zeta in IH.
    destruct (periodicCheck_loop d (x1, c1) todo) as [xc2 r'].
    destruct IH as (M2 & K2 & E2). cbn [fst snd] in *.
    split; [exact M2|]. split; [cbn; rewrite K2; reflexivity|].
    intros n k p Hn. destruct n as [|n].
    + cbn in Hn. injection Hn as <- <-. exists p1. split; [reflexivity|].
      destruct Hm as (_ & _ & _ & _ & _ & _ & _ & Hu & _). rewrite Hu in C1.
      repeat apply conj; assumption.
    + cbn in Hn. apply (E2 n k p Hn).
Qed.

(** X18. What a periodic check keeps. [periodicCheck] touches neither
    mapping, nor the user counters, nor the word-change array. It keeps
    the keys of the page list and their order, and the page number and
    start address of every entry. An entry is marked shared after the
    check exactly if it was before or its user counter does not read 1;
    no entry is ever unmarked; and every entry that is shared after the
    check has its extra resources allocated, so that [commit] takes the
    shared path for it. *)
Theorem X18_periodicCheck_keeps (d : xdefines) (x : xpersist) :
  same_memory x (periodicCheck d x) /\
  fst <$> _privatePagesList (periodicCheck d x) = fst <$> _privatePagesList x /\
  forall n k p, _privatePagesList x !! n = Some (k, p) ->
    exists p', _privatePagesList (periodicCheck d x) !! n = Some (k, p') /\
      pageNo p' = pageNo p /\ pageStart p' = pageStart p /\
      shared p'
      = shared p || negb (to_int (atomic_read (_pageUsers x) (pageNo p)) =? 1) /\
      alloced p' = alloced p || shared p'.
Proof.
  unfold periodicCheck.
  pose proof (periodicCheck_loop_effect d (_privatePagesList x) x x false
                (same_memory_refl x)) as H.
  cbv zeta in H.
  destruct (periodicCheck_loop d (x, false) (_privatePagesList x)) as [[x1 c1] l].
  cbn [fst snd] in H. destruct H as (M & K & E).
  cbn [_privatePagesList set_privatePagesList].
  split; [|split; [exact K | exact E]].
  unfold same_memory in *. cbn. exact M.
Qed.

(** ** The constructor *)





(** ** A second periodic check *)

Lemma local_page_same_memory d x x' s :
  same_memory x x' -> local_page d x' s = local_page d x s.
Proof.
  intros (_ & _ & _ & B & T & _). unfold local_page, base. rewrite B, T. reflexivity.
Qed.

Lemma recordChangesAndUpdate_quiet d x p :
  local_page d x (pageStart p) = tempTwinPage p ->
  recordChangesAndUpdate d x p false
  = (emit x (RecordChanges (pageNo p) false), p).
Proof.
  intros H. rewrite recordChangesAndUpdate_loop. cbv zeta.
  rewrite fold_left_fixed; [reflexivity|].
  intros i Hi. unfold recordChanges_word. rewrite H, Z.eqb_refl. reflexivity.
Qed.

Lemma same_but_trace_refl x : same_but_trace x x.
Proof.
  split; [apply same_memory_refl|]. repeat apply conj; reflexivity.
Qed.

Lemma same_but_trace_trans x y z :
  same_but_trace x y -> same_but_trace y z -> same_but_trace x z.
Proof.
  intros (M1 & A1 & B1 & C1 & D1) (M2 & A2 & B2 & C2 & D2).
  split; [eapply same_memory_trans; eassumption|].
  repeat apply conj; congruence.
Qed.

Lemma periodicCheck_page_tracked d x0 x p :
  0 < sizeof_ulong d -> 0 <= PageSize d -> (sizeof_ulong d | PageSize d) ->
  same_memory x0 x -> page_tracked d x0 p ->
  exists x' p',
    periodicCheck_page d (x, false) p = (x', false, p') /\
    same_memory x0 x' /\ page_settled d x0 p'.
Proof.
  intros Hw Hp Hdw Hm [[Hs Hu] | (Hs & Ha & L1 & L2 & L3 & B1 & B2)].
  - exists x, p. split; [|split; [exact Hm | left; split; assumption]].
    unfold periodicCheck_page. rewrite Hs. cbn [negb].
    destruct Hm as (_ & _ & _ & _ & _ & _ & _ & U & _). rewrite U, Hu. reflexivity.
  - rewrite (periodicCheck_page_allocated d x false p Hs Ha).
    rewrite <- (local_page_same_memory d x0 x _ Hm) in L1, B1.
    destruct (recordChangesAndUpdate_rolls_twin d x p Hw Hp Hdw L1 L2 L3 B1 B2)
      as (T & _ & _ & M & _).
    destruct (recordChangesAndUpdate_identity d x p false) as (_ & S1 & Sh & Al).
    destruct (recordChangesAndUpdate d x p false) as [x2 p3]. cbn [fst snd] in *.
    exists x2, p3. split; [reflexivity|].
    split; [eapply same_memory_trans; eassumption|].
    right. split; [congruence|]. split; [congruence|].
    rewrite T, S1. apply local_page_same_memory. exact Hm.
Qed.

Lemma periodicCheck_page_settled d x0 x p :
  same_memory x0 x -> page_settled d x0 p ->
  exists x',
    periodicCheck_page d (x, false) p = (x', false, p) /\ same_but_trace x x'.
Proof.
  intros Hm [[Hs Hu] | (Hs & Ha & T)].
  - exists x. split; [|apply same_but_trace_refl].
    unfold periodicCheck_page. rewrite Hs. cbn [negb].
    destruct Hm as (_ & _ & _ & _ & _ & _ & _ & U & _). rewrite U, Hu. reflexivity.
  - rewrite (periodicCheck_page_allocated d x false p Hs Ha).
    rewrite recordChangesAndUpdate_quiet
      by (rewrite (local_page_same_memory d x0 x _ Hm); congruence).
    eexists. split; [reflexivity|].
    split; [unfold same_memory|]; repeat apply conj; reflexivity.
Qed.

Lemma same_but_trace_memory x x' : same_but_trace x x' -> same_memory x x'.
Proof. intros [M _]. exact M. Qed.

Lemma periodicCheck_loop_tracked d x0 l :
  0 < sizeof_ulong d -> 0 <= PageSize d -> (sizeof_ulong d | PageSize d) ->
  forall x,
    same_memory x0 x ->
    Forall (fun kp => page_tracked d x0 (snd kp)) l ->
    exists x' l',
      periodicCheck_loop d (x, false) l = (x', false, l') /\
      same_memory x0 x' /\ Forall (fun kp => page_settled d x0 (snd kp)) l'.
Proof.
  intros Hw Hp Hdw. induction l as [|[k p] l IH]; intros x Hm Hall.
  - exists x, []. split; [reflexivity|]. split; [exact Hm | constructor].
  - apply Forall_cons in Hall. destruct Hall as [Hp0 Hall]. cbn [snd] in Hp0.
    destruct (periodicCheck_page_tracked d x0 x p Hw Hp Hdw Hm Hp0)
      as (x1 & p1 & E1 & M1 & S1).
    destruct (IH x1 M1 Hall) as (x2 & l2 & E2 & M2 & S2).
    exists x2, ((k, p1) :: l2).
    rewrite periodicCheck_loop_cons, E1, E2.
    split; [reflexivity|]. split; [exact M2|].
    constructor; assumption.
Qed.

Lemma periodicCheck_loop_settled d x0 l :
  forall x,
    same_memory x0 x ->
    Forall (fun kp => page_settled d x0 (snd kp)) l ->
    exists x',
      periodicCheck_loop d (x, false) l = (x', false, l) /\ same_but_trace x x'.
Proof.
  induction l as [|[k p] l IH]; intros x Hm Hall.
  - exists x. split; [reflexivity | apply same_but_trace_refl].
  - apply Forall_cons in Hall. destruct Hall as [Hp0 Hall]. cbn [snd] in Hp0.
    destruct (periodicCheck_page_settled d x0 x p Hm Hp0) as (x1 & E1 & T1).
    assert (M1 : same_memory x0 x1).
    { eapply same_memory_trans; [exact Hm | apply same_but_trace_memory; exact T1]. }
    destruct (IH x1 M1 Hall) as (x2 & E2 & T2).
    exists x2. rewrite periodicCheck_loop_cons, E1, E2.
    split; [reflexivity|]. eapply same_but_trace_trans; eassumption.
Qed.

(** X20. Two periodic checks in a row. If every listed page is either
    unshared with a single user or shared with its resources allocated and
    its buffers of full size, a second [periodicCheck] that follows the
    first with no write in between records nothing: the page list with all
    its twins and change counters, the cache-line counters and last-writer
    marks, and both mappings come out of it as they went in; only the
    trace of calls grows. *)
Theorem X20_second_periodicCheck_records_nothing (d : xdefines) (x : xpersist) :
  0 < sizeof_ulong d -> 0 <= PageSize d -> (sizeof_ulong d | PageSize d) ->
  Forall (fun kp => page_tracked d x (snd kp)) (_privatePagesList x) ->
  same_but_trace (periodicCheck d x) (periodicCheck d (periodicCheck d x)).
Proof.
  intros Hw Hp Hdw Hall.
  destruct (periodicCheck_loop_tracked d x (_privatePagesList x) Hw Hp Hdw x
              (same_memory_refl x) Hall) as (x1 & l1 & E1 & M1 & S1).
  assert (P1 : periodicCheck d x = set_privatePagesList x1 l1).
  { unfold periodicCheck. rewrite E1. reflexivity. }
  rewrite P1.
  assert (M1' : same_memory x (set_privatePagesList x1 l1)).
  { unfold same_memory in *. cbn. exact M1. }
  destruct (periodicCheck_loop_settled d x l1 (set_privatePagesList x1 l1) M1' S1)
    as (x2 & E2 & T2).
  unfold periodicCheck at 1. cbn [_privatePagesList set_privatePagesList].
  rewrite E2.
  destruct T2 as (M2 & A2 & B2 & C2 & D2).
  split; [unfold same_memory in *; cbn in *; exact M2|].
  cbn in *. repeat apply conj; try assumption. reflexivity.
Qed.

Lemma X20_second_periodicCheck_records_nothing_witness :
  same_but_trace
    (periodicCheck d32 (set_privatePagesList (fst promoted0) [(0, snd promoted0)]))
    (periodicCheck d32
       (periodicCheck d32 (set_privatePagesList (fst promoted0) [(0, snd promoted0)]))).
Proof.
  apply (X20_second_periodicCheck_records_nothing d32
           (set_privatePagesList (fst promoted0) [(0, snd promoted0)])).
  - reflexivity.
  - vm_compute. discriminate.
  - exists 1024. reflexivity.
  - constructor; [|constructor]. right. cbn [snd].
    repeat apply conj; vm_compute; reflexivity.
Defined.

(** ** Commit of a whole transaction *)

Lemma commit_loop (d : xdefines) (x : xpersist) (doChecking : bool) :
  commit d x doChecking
  = fold_left (fun x' kp => commit_page d x' (snd kp)) (_privatePagesList x) x.
Proof. reflexivity. Qed.

Lemma keys_above_Forall (k : Z) (l : list (Z * pageinfo)) :
  keys_above k l -> Forall (fun kq => k < fst kq) l.
Proof.
  revert k. induction l as [|[k' q] l IH]; intros k H; [constructor|].
  destruct H as [Hk Hl]. constructor; [exact Hk|].
  eapply Forall_impl; [apply (IH k' Hl)|]. cbn. intros kq Hq. lia.
Qed.

Lemma keyed_pages_apart (d : xdefines) (l : list (Z * pageinfo)) :
  0 <= PageSize d ->
  keys_increasing l ->
  Forall (fun kp => pageNo (snd kp) = fst kp /\ 0 <= fst kp) l ->
  pages_apart d l.
Proof.
  intros HP. induction l as [|[k p] l IH]; intros Hinc Hall; [exact I|].
  apply Forall_cons in Hall. destruct Hall as [[Hpn Hk] Hall]. cbn [fst snd] in Hpn, Hk.
  cbn [keys_increasing] in Hinc. cbn [pages_apart]. split.
  - pose proof (keys_above_Forall k l Hinc) as Habove.
    rewrite Forall_forall in Habove, Hall. apply Forall_forall.
    intros [k' q] Hin. specialize (Habove _ Hin). destruct (Hall _ Hin) as [Hq _].
    cbn [fst snd] in *. intros n. unfold in_page, page_offset, pbytes.
    rewrite Hpn, Hq. intros H1 H2.
    assert (PageSize d * k + PageSize d <= PageSize d * k') by nia.
    assert (0 <= PageSize d * k) by nia.
    lia.
  - apply IH; [|exact Hall].
    destruct l as [|[k' q] l]; [exact I|]. destruct Hinc as [_ H]. exact H.
Qed.

Lemma length_of_lookups (a b : list Z) :
  (forall n, (n < length a)%nat -> is_Some (b !! n)) ->
  (forall n, (length a <= n)%nat -> b !! n = None) ->
  length b = length a.
Proof.
  intros H1 H2.
  destruct (Nat.lt_trichotomy (length b) (length a)) as [H | [H | H]]; [|exact H|].
  - specialize (H1 (length b) H). apply lookup_lt_is_Some_1 in H1. lia.
  - specialize (H2 (length a) (le_n _)). apply lookup_ge_None_1 in H2. lia.
Qed.

(** What one turn of the loop of [commit] does with a page nobody else
    has committed to. *)
Lemma commit_page_unrivalled (d : xdefines) (x : xpersist) (p : pageinfo) :
  0 < sizeof_ulong d -> 0 <= PageSize d ->
  (sizeof_ulong d | PageSize d) -> (16 | PageSize d) ->
  page_unrivalled d x p ->
  bytes_at (persistent (commit_page d x p)) (page_offset d p) (pbytes d)
  = local_page d x (pageStart p) /\
  (forall n, ~ in_page d p n ->
     persistent (commit_page d x p) !! n = persistent x !! n) /\
  length (persistent (commit_page d x p)) = length (persistent x) /\
  same_working_set x (commit_page d x p).
Proof.
  intros Hw HP Hdw H16 (L1 & L2 & B1 & B2 & Hin & Htwin).
  unfold commit_page. destruct (shared p && alloced p).
  - destruct (checkcommitpage_merge d x p Hw HP Hdw H16 L1 L2 B1 B2) as [Hm _].
    cbv zeta in Hm.
    split; [|split; [|split]].
    + apply list_eq. intros k.
      destruct (decide (k < pbytes d)%nat) as [Hk | Hk].
      * rewrite bytes_at_lookup by exact Hk. rewrite Hm.
        replace (page_offset d p + k - page_offset d p)%nat with k by lia.
        case_decide as Hc.
        -- symmetry. apply lookup_rdb. lia.
        -- assert (Heq : rdb (local_page d x (pageStart p)) k = rdb (origTwinPage p) k).
           { destruct (decide (rdb (local_page d x (pageStart p)) k
                               = rdb (origTwinPage p) k)) as [E | E]; [exact E|].
             exfalso. apply Hc. unfold in_page. repeat split; [lia | lia | lia | exact E]. }
           rewrite (lookup_rdb (local_page d x (pageStart p)) k) by lia.
           rewrite Heq, <- Htwin, rdb_bytes_at by exact Hk.
           apply lookup_rdb. lia.
      * unfold bytes_at. rewrite lookup_take_ge by lia.
        symmetry. apply lookup_ge_None_2. lia.
    + intros n Hn. apply checkcommitpage_outside; assumption.
    + apply length_of_lookups.
      * intros n Hn. rewrite Hm. case_decide; [eexists; reflexivity|].
        apply lookup_lt_is_Some_2. exact Hn.
      * intros n Hn. rewrite Hm. rewrite decide_False by lia.
        apply lookup_ge_None_2. exact Hn.
    + apply checkcommitpage_working_set.
  - destruct (commitPageDiffs_propagate d x (local_page d x (pageStart p))
                (origTwinPage p) (pageNo p) Hw HP Hdw H16 L1 L2 B1 B2 Hin)
      as (Hc & Ho & _).
    cbv zeta in Hc, Ho.
    split; [exact (Hc Htwin)|]. split; [exact Ho|]. split.
    + unfold commitPageDiffs. cbn [persistent set_persistent].
      destruct (SSE_SUPPORT d).
      * apply sse_loop_length.
      * apply slow_loop_length.
    + unfold same_working_set, commitPageDiffs. repeat apply conj; reflexivity.
Qed.

Lemma page_unrivalled_carried (d : xdefines) (x x' : xpersist) (q : pageinfo) :
  same_working_set x x' ->
  length (persistent x') = length (persistent x) ->
  (forall n, in_page d q n -> persistent x' !! n = persistent x !! n) ->
  page_unrivalled d x q -> page_unrivalled d x' q.
Proof.
  intros (B & T & _) Hlen Hsame (L1 & L2 & B1 & B2 & Hin & Htwin).
  assert (Hlocal : local_page d x' (pageStart q) = local_page d x (pageStart q)).
  { unfold local_page, base. rewrite B, T. reflexivity. }
  unfold page_unrivalled. rewrite Hlocal, Hlen.
  repeat apply conj; try assumption.
  rewrite <- Htwin. apply bytes_at_eq_of_lookup.
  intros k Hk. apply Hsame. unfold in_page. lia.
Qed.

Lemma commit_loop_propagates (d : xdefines) (l : list (Z * pageinfo)) :
  0 < sizeof_ulong d -> 0 <= PageSize d ->
  (sizeof_ulong d | PageSize d) -> (16 | PageSize d) ->
  forall x,
    pages_apart d l ->
    Forall (fun kp => page_unrivalled d x (snd kp)) l ->
    let x2 := fold_left (fun x' kp => commit_page d x' (snd kp)) l x in
    (forall k p, In (k, p) l ->
       bytes_at (persistent x2) (page_offset d p) (pbytes d)
       = local_page d x (pageStart p)) /\
    (forall n, (forall k q, In (k, q) l -> ~ in_page d q n) ->
       persistent x2 !! n = persistent x !! n) /\
    length (persistent x2) = length (persistent x) /\
    same_working_set x x2.
Proof.
  intros Hw HP Hdw H16. induction l as [|[k p] l IH]; intros x Hap Hall.
  - cbn [fold_left]. split; [intros ? ? []|]. split; [reflexivity|].
    split; [reflexivity | apply same_working_set_refl].
  - destruct Hap as [Hp Hap]. apply Forall_cons in Hall. destruct Hall as [Hu Hall].
    cbn [snd] in Hu.
    destruct (commit_page_unrivalled d x p Hw HP Hdw H16 Hu) as (P1 & O1 & L1 & W1).
    assert (Hall1 : Forall (fun kp => page_unrivalled d (commit_page d x p) (snd kp)) l).
    { rewrite Forall_forall in Hp, Hall. apply Forall_forall. intros [k' q] Hin.
      cbn [snd]. apply (page_unrivalled_carried d x); [exact W1 | exact L1 | |].
      - intros n Hn. apply O1. intros Hpn. exact (Hp _ Hin n Hpn Hn).
      - exact (Hall _ Hin). }
    destruct (IH (commit_page d x p) Hap Hall1) as (P2 & O2 & L2 & W2).
    cbv zeta in P2, O2, L2, W2. cbv zeta. cbn [fold_left snd].
    assert (Hlocal : forall s, local_page d (commit_page d x p) s = local_page d x s).
    { intros s. destruct W1 as (B & T & _). unfold local_page, base.
      rewrite B, T. reflexivity. }
    split; [|split; [|split]].
    + intros k' q [Heq | Hin].
      * injection Heq as <- <-. rewrite <- P1.
        apply bytes_at_eq_of_lookup. intros j Hj. apply O2.
        intros k' q Hin. rewrite Forall_forall in Hp.
        apply (Hp _ (proj2 (list_elem_of_In _ _) Hin)). unfold in_page. lia.
      * rewrite (P2 k' q Hin). apply Hlocal.
    + intros n Hn. rewrite O2 by (intros k' q Hin; apply (Hn k' q); right; exact Hin).
      apply O1. apply (Hn k p). left. reflexivity.
    + congruence.
    + eapply same_working_set_trans; eassumption.
Qed.

Lemma commit_propagates (d : xdefines) (x : xpersist)
    (doChecking : bool) :
  0 < sizeof_ulong d -> 0 <= PageSize d ->
  (sizeof_ulong d | PageSize d) -> (16 | PageSize d) ->
  keys_increasing (_privatePagesList x) ->
  Forall (fun kp => pageNo (snd kp) = fst kp /\ 0 <= fst kp) (_privatePagesList x) ->
  Forall (fun kp => page_unrivalled d x (snd kp)) (_privatePagesList x) ->
  (forall k p, In (k, p) (_privatePagesList x) ->
     bytes_at (persistent (commit d x doChecking)) (page_offset d p) (pbytes d)
     = local_page d x (pageStart p)) /\
  length (persistent (commit d x doChecking)) = length (persistent x).
Proof.
  intros Hw HP Hdw H16 Hinc Hkeys Hall.
  rewrite commit_loop.
  destruct (commit_loop_propagates d (_privatePagesList x) Hw HP Hdw H16 x
              (keyed_pages_apart d _ HP Hinc Hkeys) Hall) as (P & _ & L & _).
  split; [exact P | exact L].
Qed.

(** X21. A commit with no rival propagates the whole transaction. If the
    page list is in key order with each record under its own non-negative
    page number, and for every listed page the persistent mapping still
    holds the page's original twin, then after [commit] the persistent
    mapping holds, in every listed page, the bytes of the working copy of
    that page, whether the page went through [commitPageDiffs] or through
    [checkcommitpage]; the persistent mapping keeps its length. *)
Theorem X21_commit_propagates_every_dirty_page (d : xdefines) (x : xpersist)
    (doChecking : bool) :
  0 < sizeof_ulong d -> 0 <= PageSize d ->
  (sizeof_ulong d | PageSize d) -> (16 | PageSize d) ->
  keys_increasing (_privatePagesList x) ->
  Forall (fun kp => pageNo (snd kp) = fst kp /\ 0 <= fst kp) (_privatePagesList x) ->
  Forall (fun kp => page_unrivalled d x (snd kp)) (_privatePagesList x) ->
  (forall k p, In (k, p) (_privatePagesList x) ->
     bytes_at (persistent (commit d x doChecking)) (page_offset d p) (pbytes d)
     = local_page d x (pageStart p)) /\
  length (persistent (commit d x doChecking)) = length (persistent x).
Proof. apply commit_propagates. Qed.

Lemma X21_commit_propagates_every_dirty_page_witness :
  bytes_at (persistent (commit d32 (set_privatePagesList wrote0 [(0, first_entry wrote0)])
                          false))
           (page_offset d32 (first_entry wrote0)) (pbytes d32)
  = local_page d32 (set_privatePagesList wrote0 [(0, first_entry wrote0)])
               (pageStart (first_entry wrote0)).
Proof.
  refine (proj1 (X21_commit_propagates_every_dirty_page d32
                   (set_privatePagesList wrote0 [(0, first_entry wrote0)]) false
                   _ _ _ _ _ _ _)
                0 (first_entry wrote0) (or_introl eq_refl)).
  - reflexivity.
  - vm_compute. discriminate.
  - exists 1024. reflexivity.
  - exists 256. reflexivity.
  - exact I.
  - constructor; [|constructor]. cbn [fst snd]. split; [vm_compute; reflexivity | lia].
  - constructor; [|constructor]. cbn [snd]. unfold page_unrivalled.
    split; [vm_compute; reflexivity|]. split; [vm_compute; reflexivity|].
    split; [vm_compute; reflexivity|]. split; [vm_compute; reflexivity|].
    split; [apply Nat.leb_le; vm_compute; reflexivity|].
    refine (bool_decide_eq_true_1 _ _). vm_compute. reflexivity.
Defined.

(** ** The working mapping after a reset *)

Lemma splice_lookup (t pers : list Z) (off n i : nat) :
  (off + n <= length t)%nat -> (off + n <= length pers)%nat ->
  (take off t ++ bytes_at pers off n ++ drop (off + n) t) !! i
  = if decide (off <= i < off + n)%nat then pers !! i else t !! i.
Proof.
  intros Ht Hp.
  assert (L1 : length (take off t) = off) by (rewrite length_take; lia).
  assert (L2 : length (bytes_at pers off n) = n) by (apply length_bytes_at; exact Hp).
  destruct (decide (i < off)%nat) as [H1 | H1].
  - rewrite lookup_app_l by lia. rewrite decide_False by lia.
    apply lookup_take_lt. exact H1.
  - rewrite lookup_app_r by lia. rewrite L1.
    destruct (decide (i - off < n)%nat) as [H2 | H2].
    + rewrite lookup_app_l by lia. rewrite decide_True by lia.
      rewrite bytes_at_lookup by exact H2. f_equal. lia.
    + rewrite lookup_app_r by lia. rewrite L2, decide_False by lia.
      rewrite lookup_drop. f_equal. lia.
Qed.

Lemma splice_length (t pers : list Z) (off n : nat) :
  (off + n <= length t)%nat -> (off + n <= length pers)%nat ->
  length (take off t ++ bytes_at pers off n ++ drop (off + n) t) = length t.
Proof.
  intros Ht Hp. rewrite !length_app, length_take, length_drop.
  rewrite (length_bytes_at pers off n Hp). lia.
Qed.

(** What a flush of the open batch does to the working mapping. *)
Lemma updateBatchedPages_reloads (d : xdefines) (x : xpersist) (done : nat -> Prop)
    (hi : Z) (s : batchstate) :
  0 < PageSize d -> 2 * PageSize d < 2147483648 ->
  length (persistent x) = length (transient x) ->
  reset_inv d x done hi s -> 1 <= bs_batchedPages s ->
  let x1 := updateBatchedPages d (bs_x s) (bs_batchedPages s) (bs_batchedStart s) in
  persistent x1 = persistent x /\
  _transientMemory x1 = _transientMemory x /\
  length (transient x1) = length (transient x) /\
  (forall n, ~ done n -> transient x1 !! n = transient x !! n) /\
  (forall n, done n -> transient x1 !! n = persistent x !! n).
Proof.
  intros HP H2P Hlen (Ip & Ib & Il & Ishape & Ihi & Ibound & Isub & Isame & Iload) Hone.
  destruct Ishape as [[H0 _] | (Hn & Hlp & Hhi & Hst & Hfit)]; [lia|].
  assert (Hti : to_int (bs_batchedPages s * PageSize d) = bs_batchedPages s * PageSize d)
    by (apply to_int_small; nia).
  unfold updateBatchedPages, updatePages.
  cbn [persistent transient _transientMemory emit set_transient].
  unfold base. rewrite Hti, Ib, Hst, Ip. unfold base.
  replace (_transientMemory x + PageSize d * bs_lastpage s - _transientMemory x)
    with (PageSize d * bs_lastpage s) by lia.
  set (off := Z.to_nat (PageSize d * bs_lastpage s)).
  set (n := Z.to_nat (bs_batchedPages s * PageSize d)).
  assert (Hoff : (off + n <= length (transient (bs_x s)))%nat) by (unfold off, n; nia).
  assert (Hoff' : (off + n <= length (persistent x))%nat) by lia.
  assert (Hin : forall i, (off <= i < off + n)%nat <-> in_batch d s i).
  { intros i. unfold in_batch, off, n. split; [intros H | intros [_ H]]; [split|]; nia. }
  split; [reflexivity|]. split; [reflexivity|].
  split; [rewrite splice_length by assumption; exact Il|].
  split.
  - intros i Hi. rewrite splice_lookup by assumption.
    rewrite decide_False by (intros H; apply Hi, Isub, Hin, H).
    apply Isame. right. exact Hi.
  - intros i Hi. rewrite splice_lookup by assumption.
    case_decide as Hc; [reflexivity|].
    apply Iload; [|exact Hi]. intros H. apply Hc, Hin, H.
Qed.

Lemma updateAll_page_reset_inv (d : xdefines) (x : xpersist) (done : nat -> Prop)
    (hi : Z) (s : batchstate) (k : Z) (q : pageinfo) :
  0 < PageSize d -> 2 * PageSize d < 2147483648 ->
  length (persistent x) = length (transient x) ->
  reset_inv d x done hi s ->
  0 <= k < 2147483648 -> hi < k ->
  pageStart q = base x + PageSize d * k ->
  PageSize d * k + PageSize d <= Z.of_nat (length (transient x)) ->
  reset_inv d x (fun n => done n \/ in_page_no d k n) k (updateAll_page d s (k, q)).
Proof.
  intros HP H2P Hlen Hinv Hk Hhik Hq Hfitk.
  pose proof Hinv as (Ip & Ib & Il & Ishape & Ihi & Ibound & Isub & Isame & Iload).
  assert (Hfresh : forall n, in_page_no d k n -> ~ done n).
  { intros n [H1 _] Hd. specialize (Ibound n Hd). nia. }
  destruct ((to_uint k =? to_uint (bs_lastpage s + 1))) eqn:E.
  - (* the page joins the batch *)
    apply Z.eqb_eq in E. rewrite (to_uint_small k) in E by lia.
    destruct Ishape as [[H0 Hl] | (Hn & Hlp & Hhi & Hst & Hfit)].
    { rewrite Hl in E. vm_compute in E. lia. }
    rewrite to_uint_small in E by lia.
    assert (Hone : bs_batchedPages s = 1) by lia.
    rewrite updateAll_page_join
      by (apply Z.eqb_eq; rewrite !to_uint_small by lia; exact E).
    rewrite Hone. change (to_int (1 + 1)) with 2.
    assert (Hb : forall n,
               in_batch d {| bs_x := bs_x s; bs_batchedStart := bs_batchedStart s;
                             bs_batchedPages := 2; bs_lastpage := bs_lastpage s |} n
               <-> in_batch d s n \/ in_page_no d k n).
    { intros n. unfold in_batch, in_page_no. cbn [bs_batchedPages bs_lastpage].
      rewrite Hone, E. split.
      - intros [_ H]. destruct (decide (Z.of_nat n < PageSize d * bs_lastpage s + PageSize d));
          [left | right]; nia.
      - intros [[_ H] | H]; (split; [lia | nia]). }
    unfold reset_inv. cbn [bs_x bs_batchedStart bs_batchedPages bs_lastpage].
    split; [exact Ip|]. split; [exact Ib|]. split; [exact Il|].
    split; [right; repeat apply conj; try lia; nia|].
    split; [lia|].
    split.
    { intros n [Hd | [_ Hpg]]; [specialize (Ibound n Hd); nia | nia]. }
    split.
    { intros n Hn'. apply Hb in Hn'. destruct Hn' as [H | H]; [left; apply Isub, H | right; exact H]. }
    split.
    + intros n [Hn' | Hn'].
      * apply Hb in Hn'. destruct Hn' as [H | H]; apply Isame; [left; exact H|].
        right. apply Hfresh, H.
      * apply Isame. right. intros Hd. apply Hn'. left. exact Hd.
    + intros n Hnb [Hd | Hpg].
      * apply Iload; [|exact Hd]. intros H. apply Hnb, Hb. left. exact H.
      * exfalso. apply Hnb, Hb. right. exact Hpg.
  - (* the page starts a new batch *)
    rewrite updateAll_page_break by exact E.
    rewrite (to_uint_small k) by lia.
    assert (Hb : forall x1 n,
               in_batch d {| bs_x := x1; bs_batchedStart := pageStart q;
                             bs_batchedPages := 1; bs_lastpage := k |} n
               <-> in_page_no d k n).
    { intros x1 n. unfold in_batch, in_page_no. cbn [bs_batchedPages bs_lastpage].
      split; [intros [_ H] | intros H; split]; lia. }
    assert (Hx1 : let x1 := if 0 <? bs_batchedPages s
                            then updateBatchedPages d (bs_x s) (bs_batchedPages s)
                                   (bs_batchedStart s)
                            else bs_x s in
                  persistent x1 = persistent x /\
                  _transientMemory x1 = _transientMemory x /\
                  length (transient x1) = length (transient x) /\
                  (forall n, ~ done n -> transient x1 !! n = transient x !! n) /\
                  (forall n, done n -> transient x1 !! n = persistent x !! n)).
    { destruct (0 <? bs_batchedPages s) eqn:Epos.
      - apply Z.ltb_lt in Epos.
        apply (updateBatchedPages_reloads d x done hi s HP H2P Hlen Hinv). lia.
      - apply Z.ltb_ge in Epos. cbv zeta.
        assert (Hno : forall n, ~ in_batch d s n) by (intros n [H _]; lia).
        split; [exact Ip|]. split; [exact Ib|]. split; [exact Il|].
        split; [intros n Hn; apply Isame; right; exact Hn|].
        intros n Hn. apply Iload; [apply Hno | exact Hn]. }
    cbv zeta in Hx1. destruct Hx1 as (Xp & Xb & Xl & Xsame & Xload).
    set (x1 := if 0 <? bs_batchedPages s
               then updateBatchedPages d (bs_x s) (bs_batchedPages s) (bs_batchedStart s)
               else bs_x s) in *.
    specialize (Hb x1).
    unfold reset_inv. cbn [bs_x bs_batchedStart bs_batchedPages bs_lastpage].
    split; [exact Xp|]. split; [exact Xb|]. split; [exact Xl|].
    split; [right; repeat apply conj; try lia; exact Hq|].
    split; [lia|].
    split.
    { intros n [Hd | [_ Hpg]]; [specialize (Ibound n Hd); nia | nia]. }
    split; [intros n Hn'; right; exact (proj1 (Hb n) Hn')|].
    split.
    + intros n [Hn' | Hn'].
      * apply Xsame, Hfresh, (proj1 (Hb n) Hn').
      * apply Xsame. intros Hd. apply Hn'. left. exact Hd.
    + intros n Hnb [Hd | Hpg]; [apply Xload, Hd|].
      exfalso. apply Hnb, (proj2 (Hb n) Hpg).
Qed.

Lemma reset_inv_ext (d : xdefines) (x : xpersist) (done done' : nat -> Prop) (hi : Z)
    (s : batchstate) :
  (forall n, done n <-> done' n) -> reset_inv d x done hi s -> reset_inv d x done' hi s.
Proof.
  intros He (Ip & Ib & Il & Ishape & Ihi & Ibound & Isub & Isame & Iload).
  unfold reset_inv. repeat apply conj; try assumption.
  - intros n Hn. apply Ibound, He, Hn.
  - intros n Hn. apply He, Isub, Hn.
  - intros n [Hn | Hn]; apply Isame; [left; exact Hn|].
    right. intros H. apply Hn, He, H.
  - intros n Hn Hd. apply Iload; [exact Hn | apply He, Hd].
Qed.

Lemma updateAll_loop_reset_inv (d : xdefines) (x : xpersist) (l : list (Z * pageinfo)) :
  0 < PageSize d -> 2 * PageSize d < 2147483648 ->
  length (persistent x) = length (transient x) ->
  forall (done : nat -> Prop) (hi : Z) (s : batchstate),
    reset_inv d x done hi s ->
    keys_above hi l ->
    Forall (fun kp => fst kp < 2147483648 /\
                      pageStart (snd kp) = base x + PageSize d * fst kp /\
                      PageSize d * fst kp + PageSize d
                      <= Z.of_nat (length (transient x))) l ->
    0 <= hi + 1 ->
    exists hi',
      reset_inv d x (fun n => done n \/ exists k q, In (k, q) l /\ in_page_no d k n)
                hi' (fold_left (updateAll_page d) l s).
Proof.
  intros HP H2P Hlen. induction l as [|[k q] l IH]; intros done hi s Hinv Hkeys Hall Hhi.
  - exists hi. cbn [fold_left]. apply (reset_inv_ext d x done); [|exact Hinv].
    intros n. split; [left; assumption|]. intros [H | (k & q & [] & _)]. exact H.
  - destruct Hkeys as [Hk Hkeys]. apply Forall_cons in Hall.
    destruct Hall as [(Hk31 & Hq & Hfit) Hall]. cbn [fst snd] in Hk31, Hq, Hfit.
    pose proof (updateAll_page_reset_inv d x done hi s k q HP H2P Hlen Hinv
                  ltac:(lia) Hk Hq Hfit) as Hstep.
    destruct (IH _ k _ Hstep Hkeys Hall ltac:(lia)) as [hi' Hfin].
    exists hi'. cbn [fold_left].
    eapply reset_inv_ext; [|exact Hfin].
    intros n. split.
    + intros [[H | H] | (k' & q' & Hin & H)].
      * left. exact H.
      * right. exists k, q. split; [left; reflexivity | exact H].
      * right. exists k', q'. split; [right; exact Hin | exact H].
    + intros [H | (k' & q' & [Heq | Hin] & H)].
      * left. left. exact H.
      * injection Heq as <- <-. left. right. exact H.
      * right. exists k', q'. split; assumption.
Qed.

Lemma updateAll_reloads (d : xdefines) (x : xpersist) :
  0 < PageSize d -> 2 * PageSize d < 2147483648 ->
  length (persistent x) = length (transient x) ->
  keys_increasing (_privatePagesList x) ->
  Forall (fun kp => 0 <= fst kp < 2147483648 /\
                    pageStart (snd kp) = base x + PageSize d * fst kp /\
                    PageSize d * fst kp + PageSize d
                    <= Z.of_nat (length (transient x)))
         (_privatePagesList x) ->
  (forall k q n, In (k, q) (_privatePagesList x) -> in_page_no d k n ->
     transient (updateAll d x) !! n = persistent x !! n) /\
  (forall n, (forall k q, In (k, q) (_privatePagesList x) -> ~ in_page_no d k n) ->
     transient (updateAll d x) !! n = transient x !! n) /\
  length (transient (updateAll d x)) = length (transient x).
Proof.
  intros HP H2P Hlen Hinc Hall.
  unfold updateAll.
  destruct (_privatePagesList x) as [|[k0 q0] l] eqn:Hl.
  { split; [intros ? ? ? []|]. split; reflexivity. }
  set (s0 := {| bs_x := x; bs_batchedStart := 0; bs_batchedPages := 0;
                bs_lastpage := 0xFFFFFFF0 |}).
  assert (Hinv0 : reset_inv d x (fun _ => False) (-1) s0).
  { unfold reset_inv, s0. cbn [bs_x bs_batchedPages bs_lastpage].
    split; [reflexivity|]. split; [reflexivity|]. split; [reflexivity|].
    split; [left; split; reflexivity|]. split; [lia|].
    split; [intros n []|]. split; [intros n [H _]; cbn in H; lia|].
    split; [reflexivity|]. intros n _ []. }
  assert (Hkeys : keys_above (-1) ((k0, q0) :: l)).
  { split; [|exact Hinc]. apply Forall_cons in Hall. destruct Hall as [(H & _) _].
    cbn [fst] in H. lia. }
  assert (Hall' : Forall (fun kp => fst kp < 2147483648 /\
                      pageStart (snd kp) = base x + PageSize d * fst kp /\
                      PageSize d * fst kp + PageSize d
                      <= Z.of_nat (length (transient x))) ((k0, q0) :: l)).
  { eapply Forall_impl; [exact Hall|]. cbn. intros kp (A & B & C).
    split; [lia|]. split; assumption. }
  destruct (updateAll_loop_reset_inv d x ((k0, q0) :: l) HP H2P Hlen _ (-1) s0
              Hinv0 Hkeys Hall' ltac:(lia)) as [hi' Hfin].
  set (s := fold_left (updateAll_page d) ((k0, q0) :: l) s0) in *.
  cbn [transient emit set_privatePagesList].
  assert (Hx1 : let x1 := if 0 <? bs_batchedPages s
                          then updateBatchedPages d (bs_x s) (bs_batchedPages s)
                                 (bs_batchedStart s)
                          else bs_x s in
                length (transient x1) = length (transient x) /\
                (forall n, ~ (False \/ exists k q, In (k, q) ((k0, q0) :: l) /\
                                                   in_page_no d k n) ->
                           transient x1 !! n = transient x !! n) /\
                (forall n, (False \/ exists k q, In (k, q) ((k0, q0) :: l) /\
                                                 in_page_no d k n) ->
                           transient x1 !! n = persistent x !! n)).
  { destruct (0 <? bs_batchedPages s) eqn:Epos.
    - apply Z.ltb_lt in Epos.
      destruct (updateBatchedPages_reloads d x _ hi' s HP H2P Hlen Hfin ltac:(lia))
        as (_ & _ & L & A & B).
      split; [exact L|]. split; [exact A | exact B].
    - apply Z.ltb_ge in Epos. cbv zeta.
      destruct Hfin as (_ & _ & Il & _ & _ & _ & _ & Isame & Iload).
      assert (Hno : forall n, ~ in_batch d s n) by (intros n [H _]; lia).
      split; [exact Il|].
      split; [intros n Hn; apply Isame; right; exact Hn|].
      intros n Hn. apply Iload; [apply Hno | exact Hn]. }
  cbv zeta in Hx1. destruct Hx1 as (L & A & B).
  split; [|split; [|exact L]].
  - intros k q n Hin Hpg. apply B. right. exists k, q. split; assumption.
  - intros n Hn. apply A. intros [[] | (k & q & Hin & Hpg)]. exact (Hn k q Hin Hpg).
Qed.

(** X22. The working mapping after a reset. With the page list in key
    order, every entry in place (the record under key [k] has its working
    copy [k] pages into the mapping) and inside the mappings, [updateAll]
    leaves the working mapping showing, in every byte of every listed
    page, the byte of the persistent mapping (the private copy is gone),
    and in every other byte what it showed before: merging neighbouring
    pages into one call never discards a page that was not dirty. *)
Theorem X22_updateAll_reloads_only_dirty_pages (d : xdefines) (x : xpersist) :
  0 < PageSize d -> 2 * PageSize d < 2147483648 ->
  length (persistent x) = length (transient x) ->
  keys_increasing (_privatePagesList x) ->
  Forall (fun kp => 0 <= fst kp < 2147483648 /\
                    pageStart (snd kp) = base x + PageSize d * fst kp /\
                    PageSize d * fst kp + PageSize d
                    <= Z.of_nat (length (transient x)))
         (_privatePagesList x) ->
  (forall k q n, In (k, q) (_privatePagesList x) -> in_page_no d k n ->
     transient (updateAll d x) !! n = persistent x !! n) /\
  (forall n, (forall k q, In (k, q) (_privatePagesList x) -> ~ in_page_no d k n) ->
     transient (updateAll d x) !! n = transient x !! n) /\
  length (transient (updateAll d x)) = length (transient x).
Proof. apply updateAll_reloads. Qed.

Lemma X22_updateAll_reloads_only_dirty_pages_witness :
  transient (updateAll d32 (set_privatePagesList wrote0 [(0, first_entry wrote0)])) !! 0%nat
  = persistent (set_privatePagesList wrote0 [(0, first_entry wrote0)]) !! 0%nat.
Proof.
  refine (proj1 (X22_updateAll_reloads_only_dirty_pages d32
                   (set_privatePagesList wrote0 [(0, first_entry wrote0)]) _ _ _ _ _)
                0 (first_entry wrote0) 0%nat (or_introl eq_refl) _).
  - reflexivity.
  - reflexivity.
  - apply Nat.eqb_eq. vm_compute. reflexivity.
  - exact I.
  - constructor; [|constructor]. cbn [fst snd].
    split; [lia|]. split; [vm_compute; reflexivity|].
    apply Z.leb_le. vm_compute. reflexivity.
  - vm_compute. split; [discriminate | reflexivity].
Defined.

(** ** A whole transaction *)





